(** * libmysqlclient_cpp_wrapper: a shallow embedding of the three RAII wrappers

    The development follows [libmysqlclient_cpp_wrapper.h]:

    - [MySQLClientLibrary], [MySQLConnection] and [MySQLPreparedStatement]
      become records holding the members of the C++ classes;
    - every member function becomes a function from the object (and the
      behaviour of the native client library, record [Native]) to an
      [Outcome]: the object afterwards, the native calls that were made, in
      order, and either the returned value or the exception thrown;
    - [std::shared_ptr] / [std::weak_ptr] ownership becomes a store of
      reference-counted objects ([World]) with explicit release cascades.

    Integers are [Z]; pointers and native handles are [Z] addresses with the
    null pointer [0].  The data model is LP64: [std::size_t] and
    [unsigned long] are both 64 bits wide. *)

From Stdlib Require Import ZArith Lia.
From stdpp Require Import base list strings.

Set Default Proof Using "Type".

(** ** Native declarations used by the wrapper (mysql.h) *)

(** [enum enum_field_types] of mysql.h. *)
Inductive enum_field_types : Set :=
| MYSQL_TYPE_DECIMAL | MYSQL_TYPE_TINY | MYSQL_TYPE_SHORT | MYSQL_TYPE_LONG
| MYSQL_TYPE_FLOAT | MYSQL_TYPE_DOUBLE | MYSQL_TYPE_NULL | MYSQL_TYPE_TIMESTAMP
| MYSQL_TYPE_LONGLONG | MYSQL_TYPE_INT24 | MYSQL_TYPE_DATE | MYSQL_TYPE_TIME
| MYSQL_TYPE_DATETIME | MYSQL_TYPE_YEAR | MYSQL_TYPE_NEWDATE | MYSQL_TYPE_VARCHAR
| MYSQL_TYPE_BIT | MYSQL_TYPE_JSON | MYSQL_TYPE_NEWDECIMAL | MYSQL_TYPE_ENUM
| MYSQL_TYPE_SET | MYSQL_TYPE_TINY_BLOB | MYSQL_TYPE_MEDIUM_BLOB
| MYSQL_TYPE_LONG_BLOB | MYSQL_TYPE_BLOB | MYSQL_TYPE_VAR_STRING
| MYSQL_TYPE_STRING | MYSQL_TYPE_GEOMETRY.

#[global] Instance enum_field_types_eq_dec : EqDecision enum_field_types.
Proof. solve_decision. Defined.

(** The numeric value of each enumerator. *)
Definition field_type_code (t : enum_field_types) : Z :=
  match t with
  | MYSQL_TYPE_DECIMAL => 0 | MYSQL_TYPE_TINY => 1 | MYSQL_TYPE_SHORT => 2
  | MYSQL_TYPE_LONG => 3 | MYSQL_TYPE_FLOAT => 4 | MYSQL_TYPE_DOUBLE => 5
  | MYSQL_TYPE_NULL => 6 | MYSQL_TYPE_TIMESTAMP => 7 | MYSQL_TYPE_LONGLONG => 8
  | MYSQL_TYPE_INT24 => 9 | MYSQL_TYPE_DATE => 10 | MYSQL_TYPE_TIME => 11
  | MYSQL_TYPE_DATETIME => 12 | MYSQL_TYPE_YEAR => 13 | MYSQL_TYPE_NEWDATE => 14
  | MYSQL_TYPE_VARCHAR => 15 | MYSQL_TYPE_BIT => 16 | MYSQL_TYPE_JSON => 245
  | MYSQL_TYPE_NEWDECIMAL => 246 | MYSQL_TYPE_ENUM => 247 | MYSQL_TYPE_SET => 248
  | MYSQL_TYPE_TINY_BLOB => 249 | MYSQL_TYPE_MEDIUM_BLOB => 250
  | MYSQL_TYPE_LONG_BLOB => 251 | MYSQL_TYPE_BLOB => 252
  | MYSQL_TYPE_VAR_STRING => 253 | MYSQL_TYPE_STRING => 254
  | MYSQL_TYPE_GEOMETRY => 255
  end%Z.

(** [#define MYSQL_NO_DATA 100] of mysql.h. *)
Definition MYSQL_NO_DATA : Z := 100.

(** The native binding descriptor [MYSQL_BIND] of mysql.h, field by field.
    Pointers and integers are [Z]; the wrapper writes [buffer_type],
    [buffer] and [buffer_length] only. *)
Record MYSQL_BIND : Set := mkBind {
  length_ptr : Z;
  is_null : Z;
  buffer : Z;
  error : Z;
  row_ptr : Z;
  store_param_func : Z;
  fetch_result : Z;
  skip_result : Z;
  buffer_length : Z;
  offset : Z;
  length_value : Z;
  param_number : Z;
  pack_length : Z;
  buffer_type : enum_field_types;
  error_value : Z;
  is_unsigned : Z;
  long_data_used : Z;
  is_null_value : Z;
  extension : Z
}.

#[global] Instance MYSQL_BIND_eq_dec : EqDecision MYSQL_BIND.
Proof. solve_decision. Defined.

(** [memset(&parameter, 0, sizeof(parameter))]: every field is zero, the
    tag being the enumerator of value 0. *)
Definition zeroed_bind : MYSQL_BIND :=
  mkBind 0 0 0 0 0 0 0 0 0 0 0 0 0 MYSQL_TYPE_DECIMAL 0 0 0 0 0.

Definition set_buffer_type (t : enum_field_types) (b : MYSQL_BIND) : MYSQL_BIND :=
  mkBind (length_ptr b) (is_null b) (buffer b) (error b) (row_ptr b)
    (store_param_func b) (fetch_result b) (skip_result b) (buffer_length b)
    (offset b) (length_value b) (param_number b) (pack_length b) t
    (error_value b) (is_unsigned b) (long_data_used b) (is_null_value b)
    (extension b).

Definition set_buffer (p : Z) (b : MYSQL_BIND) : MYSQL_BIND :=
  mkBind (length_ptr b) (is_null b) p (error b) (row_ptr b)
    (store_param_func b) (fetch_result b) (skip_result b) (buffer_length b)
    (offset b) (length_value b) (param_number b) (pack_length b) (buffer_type b)
    (error_value b) (is_unsigned b) (long_data_used b) (is_null_value b)
    (extension b).

Definition set_buffer_length (n : Z) (b : MYSQL_BIND) : MYSQL_BIND :=
  mkBind (length_ptr b) (is_null b) (buffer b) (error b) (row_ptr b)
    (store_param_func b) (fetch_result b) (skip_result b) n
    (offset b) (length_value b) (param_number b) (pack_length b) (buffer_type b)
    (error_value b) (is_unsigned b) (long_data_used b) (is_null_value b)
    (extension b).

(** ** Machine integers *)

(** Width of [std::size_t] and of [unsigned long] (LP64). *)
Definition ulong_bits : Z := 64.

(** [static_cast<unsigned long>(x)]: reduction modulo [2^64]. *)
Definition to_ulong (x : Z) : Z := (x mod 2 ^ ulong_bits)%Z.

(** [std::string::npos], the largest [std::size_t]. *)
Definition npos : Z := (2 ^ ulong_bits - 1)%Z.

(** A value of type [std::size_t]. *)
Definition is_size_t (x : Z) : Prop := (0 <= x < 2 ^ ulong_bits)%Z.

(** [sizeof] of the fundamental types the typed helpers take. *)
Definition sizeof_char : Z := 1.
Definition sizeof_short : Z := 2.
Definition sizeof_int : Z := 4.
Definition sizeof_long_long : Z := 8.
Definition sizeof_float : Z := 4.
Definition sizeof_double : Z := 8.

(** ** Exceptions and outcomes *)

Inductive exn : Set :=
| runtime_error (what : string)
| logic_error (what : string)
| out_of_range.

Inductive Result (A : Type) : Type :=
| Ok (a : A)
| Throw (e : exn).
Arguments Ok {A} a.
Arguments Throw {A} e.

Definition throws {A} (r : Result A) : Prop :=
  match r with Throw _ => True | Ok _ => False end.

(** ** The native client library *)

(** A call into the native library, with its arguments. *)
Inductive NativeCall : Set :=
| Call_mysql_real_connect (mysql : Z) (host user : string)
    (passwd : option string) (db : string) (port : Z)
    (unix_socket : option string) (client_flag : Z)
| Call_mysql_autocommit (mysql : Z) (auto_mode : Z)
| Call_mysql_get_server_version (mysql : Z)
| Call_mysql_error (mysql : Z)
| Call_mysql_stmt_prepare (stmt : Z) (query : string) (len : Z)
| Call_mysql_stmt_bind_param (stmt : Z) (binds : list MYSQL_BIND)
| Call_mysql_stmt_bind_result (stmt : Z) (binds : list MYSQL_BIND)
| Call_mysql_stmt_execute (stmt : Z)
| Call_mysql_stmt_fetch (stmt : Z)
| Call_mysql_stmt_free_result (stmt : Z)
| Call_mysql_stmt_error (stmt : Z).

(** What the native library answers.  The library is external: every
    statement below holds for an arbitrary [Native]. *)
Record Native : Type := mkNative {
  mysql_library_init : Z -> Z -> Z -> Z;
  mysql_init : Z -> Z;
  mysql_stmt_init : Z -> Z;
  mysql_real_connect :
    Z -> string -> string -> option string -> string -> Z -> option string -> Z -> Z;
  mysql_autocommit : Z -> Z -> Z;
  mysql_get_server_version : Z -> Z;
  mysql_error : Z -> string;
  mysql_stmt_prepare : Z -> string -> Z -> Z;
  mysql_stmt_bind_param : Z -> list MYSQL_BIND -> Z;
  mysql_stmt_bind_result : Z -> list MYSQL_BIND -> Z;
  mysql_stmt_execute : Z -> Z;
  mysql_stmt_fetch : Z -> Z;
  mysql_stmt_free_result : Z -> Z;
  mysql_stmt_error : Z -> string
}.

(** The effect of one member function: the object afterwards, the native
    calls it made, and what it returned or threw. *)
Record Outcome (S A : Type) : Type := mkOutcome {
  state_after : S;
  calls : list NativeCall;
  result : Result A
}.
Arguments mkOutcome {S A} _ _ _.
Arguments state_after {S A} _.
Arguments calls {S A} _.
Arguments result {S A} _.

(** ** MySQLConnection: members and member functions *)

(** [m_library] is a [std::shared_ptr<MySQLClientLibrary>]: the identity of
    the library object it owns, or [None] when it is empty. *)
Record MySQLConnection : Set := mkConn {
  m_library : option nat;
  m_mysql : Z
}.

Definition connect (host : string) (port : Z) (database user : string)
    (password : option string) (clientFlags : Z)
    (n : Native) (c : MySQLConnection) : Outcome MySQLConnection unit :=
  let r := mysql_real_connect n (m_mysql c) host user password database port
             None clientFlags in
  mkOutcome c
    [Call_mysql_real_connect (m_mysql c) host user password database port
       None clientFlags]
    (if decide (r = 0%Z)
     then Throw (runtime_error "could not connect to database server")
     else Ok tt).

Definition setAutoCommit (autoCommit : bool)
    (n : Native) (c : MySQLConnection) : Outcome MySQLConnection unit :=
  let mode := (if autoCommit then 1 else 0)%Z in
  let r := mysql_autocommit n (m_mysql c) mode in
  mkOutcome c [Call_mysql_autocommit (m_mysql c) mode]
    (if decide (r = 0%Z)
     then Ok tt
     else Throw (runtime_error
            ("could not set autocommit mode to "
               +:+ (if autoCommit then "on" else "off")))).

(** [noexcept]: the result is a plain value. *)
Definition getServerVersion (n : Native) (c : MySQLConnection)
    : list NativeCall * Z :=
  ([Call_mysql_get_server_version (m_mysql c)],
   mysql_get_server_version n (m_mysql c)).

(** ** MySQLPreparedStatement: members and member functions *)

(** [m_conn] is a [std::shared_ptr<MySQLConnection>]: the identity of the
    connection object it owns. *)
Record MySQLPreparedStatement : Set := mkStmt {
  m_conn : nat;
  m_stmt : Z;
  m_parameters : list MYSQL_BIND;
  m_results : list MYSQL_BIND;
  m_errorCode : Z
}.

Definition set_errorCode (e : Z) (s : MySQLPreparedStatement) :=
  mkStmt (m_conn s) (m_stmt s) (m_parameters s) (m_results s) e.
Definition set_parameters (ps : list MYSQL_BIND) (s : MySQLPreparedStatement) :=
  mkStmt (m_conn s) (m_stmt s) ps (m_results s) (m_errorCode s).
Definition set_results (rs : list MYSQL_BIND) (s : MySQLPreparedStatement) :=
  mkStmt (m_conn s) (m_stmt s) (m_parameters s) rs (m_errorCode s).

Definition getErrorCode (s : MySQLPreparedStatement) : Z := m_errorCode s.

(** [strlen]: the number of characters before the first NUL. *)
Fixpoint strlen (s : string) : nat :=
  match s with
  | EmptyString => 0
  | String a s' => if decide (a = Ascii.zero) then 0 else S (strlen s')
  end.

(** [prepare(const char* sql, std::size_t len = npos)]. *)
Definition prepare_cstr (sql : string) (len : Z)
    (n : Native) (s : MySQLPreparedStatement)
    : Outcome MySQLPreparedStatement unit :=
  let len := if decide (len = npos) then Z.of_nat (strlen sql) else len in
  let r := mysql_stmt_prepare n (m_stmt s) sql (to_ulong len) in
  let s' := set_errorCode r s in
  let c := Call_mysql_stmt_prepare (m_stmt s) sql (to_ulong len) in
  if decide (r = 0%Z)
  then mkOutcome s' [c] (Ok tt)
  else mkOutcome s' [c; Call_mysql_stmt_error (m_stmt s)]
         (Throw (runtime_error
            ("failed to prepare prepared statement: "
               +:+ mysql_stmt_error n (m_stmt s)))).

(** [prepare(const std::string& sql)]. *)
Definition prepare (sql : string) :=
  prepare_cstr sql (Z.of_nat (String.length sql)).

(** [addParameter(enum enum_field_types, const void*, std::size_t)]. *)
Definition addParameter (bufferType : enum_field_types) (buf : Z)
    (bufferLength : Z) (s : MySQLPreparedStatement) : MySQLPreparedStatement :=
  let parameter := zeroed_bind in
  let parameter := set_buffer_type bufferType parameter in
  let parameter := set_buffer buf parameter in
  let parameter := set_buffer_length (to_ulong bufferLength) parameter in
  set_parameters (m_parameters s ++ [parameter]) s.

Definition addParameter_blob (buf : Z) (bufferLength : Z) :=
  addParameter MYSQL_TYPE_BLOB buf bufferLength.
Definition addParameter_char (value : Z) :=
  addParameter MYSQL_TYPE_TINY value sizeof_char.
Definition addParameter_short (value : Z) :=
  addParameter MYSQL_TYPE_SHORT value sizeof_short.
Definition addParameter_int (value : Z) :=
  addParameter MYSQL_TYPE_LONG value sizeof_int.
Definition addParameter_long_long (value : Z) :=
  addParameter MYSQL_TYPE_LONGLONG value sizeof_long_long.
Definition addParameter_float (value : Z) :=
  addParameter MYSQL_TYPE_FLOAT value sizeof_float.
Definition addParameter_double (value : Z) :=
  addParameter MYSQL_TYPE_FLOAT value sizeof_double.
Definition addParameter_string (value : Z) (size : Z) :=
  addParameter MYSQL_TYPE_STRING value size.

(** [m_parameters.at(index).buffer_length = ...]: [at] throws
    [std::out_of_range] when [index] is not below the size. *)
Definition setParameterLength (index : nat) (len : Z)
    (s : MySQLPreparedStatement) : Outcome MySQLPreparedStatement unit :=
  match m_parameters s !! index with
  | Some p =>
      mkOutcome
        (set_parameters
           (<[index := set_buffer_length (to_ulong len) p]> (m_parameters s)) s)
        [] (Ok tt)
  | None => mkOutcome s [] (Throw out_of_range)
  end.

Definition bindParameters (n : Native) (s : MySQLPreparedStatement)
    : Outcome MySQLPreparedStatement unit :=
  match m_parameters s with
  | [] => mkOutcome s [] (Throw (logic_error "there are no parameters"))
  | _ :: _ =>
      let r := mysql_stmt_bind_param n (m_stmt s) (m_parameters s) in
      let s' := set_errorCode r s in
      let c := Call_mysql_stmt_bind_param (m_stmt s) (m_parameters s) in
      if decide (r = 0%Z)
      then mkOutcome s' [c] (Ok tt)
      else mkOutcome s' [c; Call_mysql_stmt_error (m_stmt s)]
             (Throw (runtime_error
                ("failed to bind parameters prepared statement: "
                   +:+ mysql_stmt_error n (m_stmt s))))
  end.

(** [addResult(enum enum_field_types, void*, std::size_t)]. *)
Definition addResult (bufferType : enum_field_types) (buf : Z)
    (bufferLength : Z) (s : MySQLPreparedStatement) : MySQLPreparedStatement :=
  let parameter := zeroed_bind in
  let parameter := set_buffer_type bufferType parameter in
  let parameter := set_buffer buf parameter in
  let parameter := set_buffer_length (to_ulong bufferLength) parameter in
  set_results (m_results s ++ [parameter]) s.

Definition addResult_blob (buf : Z) (bufferLength : Z) :=
  addResult MYSQL_TYPE_BLOB buf bufferLength.
Definition addResult_char (value : Z) :=
  addResult MYSQL_TYPE_TINY value sizeof_char.
Definition addResult_short (value : Z) :=
  addResult MYSQL_TYPE_SHORT value sizeof_short.
Definition addResult_int (value : Z) :=
  addResult MYSQL_TYPE_LONG value sizeof_int.
Definition addResult_long_long (value : Z) :=
  addResult MYSQL_TYPE_LONGLONG value sizeof_long_long.
Definition addResult_float (value : Z) :=
  addResult MYSQL_TYPE_FLOAT value sizeof_float.
Definition addResult_double (value : Z) :=
  addResult MYSQL_TYPE_DOUBLE value sizeof_double.
Definition addResult_string (value : Z) (size : Z) :=
  addResult MYSQL_TYPE_STRING value size.

Definition bindResults (n : Native) (s : MySQLPreparedStatement)
    : Outcome MySQLPreparedStatement unit :=
  match m_results s with
  | [] => mkOutcome s [] (Throw (logic_error "there are no results"))
  | _ :: _ =>
      let r := mysql_stmt_bind_result n (m_stmt s) (m_results s) in
      let s' := set_errorCode r s in
      let c := Call_mysql_stmt_bind_result (m_stmt s) (m_results s) in
      if decide (r = 0%Z)
      then mkOutcome s' [c] (Ok tt)
      else mkOutcome s' [c; Call_mysql_stmt_error (m_stmt s)]
             (Throw (runtime_error
                ("failed to bind results prepared statement: "
                   +:+ mysql_stmt_error n (m_stmt s))))
  end.

Definition execute (n : Native) (s : MySQLPreparedStatement)
    : Outcome MySQLPreparedStatement unit :=
  let r := mysql_stmt_execute n (m_stmt s) in
  let s' := set_errorCode r s in
  let c := Call_mysql_stmt_execute (m_stmt s) in
  if decide (r = 0%Z)
  then mkOutcome s' [c] (Ok tt)
  else mkOutcome s' [c; Call_mysql_stmt_error (m_stmt s)]
         (Throw (runtime_error
            ("failed to execute prepared statement: "
               +:+ mysql_stmt_error n (m_stmt s)))).

Definition fetch (n : Native) (s : MySQLPreparedStatement)
    : Outcome MySQLPreparedStatement bool :=
  let res := mysql_stmt_fetch n (m_stmt s) in
  mkOutcome s [Call_mysql_stmt_fetch (m_stmt s)]
    (if decide (res = 0%Z) then Ok true
     else if decide (res = MYSQL_NO_DATA) then Ok false
     else Throw (runtime_error "failed to fetch data")).

Definition stop (n : Native) (s : MySQLPreparedStatement)
    : Outcome MySQLPreparedStatement unit :=
  let r := mysql_stmt_free_result n (m_stmt s) in
  mkOutcome s [Call_mysql_stmt_free_result (m_stmt s)]
    (if decide (r = 0%Z) then Ok tt
     else Throw (runtime_error "failed to stop prepared statement")).

(** The member functions of a connection and of a statement that a client
    may call on an object it holds. *)
Inductive ConnMethod : Set :=
| M_connect (host : string) (port : Z) (database user : string)
    (password : option string) (clientFlags : Z)
| M_setAutoCommit (autoCommit : bool)
| M_getServerVersion.

Inductive StmtMethod : Set :=
| M_prepare (sql : string)
| M_prepare_cstr (sql : string) (len : Z)
| M_addParameter (bufferType : enum_field_types) (buf len : Z)
| M_setParameterLength (index : nat) (len : Z)
| M_bindParameters
| M_addResult (bufferType : enum_field_types) (buf len : Z)
| M_bindResults
| M_execute
| M_fetch
| M_stop.

Definition forget {S A} (o : Outcome S A) : S * list NativeCall :=
  (state_after o, calls o).

Definition call_conn (m : ConnMethod) (n : Native) (c : MySQLConnection)
    : MySQLConnection * list NativeCall :=
  match m with
  | M_connect host port database user password clientFlags =>
      forget (connect host port database user password clientFlags n c)
  | M_setAutoCommit a => forget (setAutoCommit a n c)
  | M_getServerVersion => (c, fst (getServerVersion n c))
  end.

Definition call_stmt (m : StmtMethod) (n : Native) (s : MySQLPreparedStatement)
    : MySQLPreparedStatement * list NativeCall :=
  match m with
  | M_prepare sql => forget (prepare sql n s)
  | M_prepare_cstr sql len => forget (prepare_cstr sql len n s)
  | M_addParameter t b l => (addParameter t b l s, [])
  | M_setParameterLength i l => forget (setParameterLength i l s)
  | M_bindParameters => forget (bindParameters n s)
  | M_addResult t b l => (addResult t b l s, [])
  | M_bindResults => forget (bindResults n s)
  | M_execute => forget (execute n s)
  | M_fetch => forget (fetch n s)
  | M_stop => forget (stop n s)
  end.

(** ** Shared ownership *)

(** [MySQLClientLibrary]: its only non-static member. *)
Record MySQLClientLibrary : Set := mkLib {
  lib_m_errorCode : Z
}.

(** An object managed by [std::shared_ptr]: the strong count of its control
    block and the object.  A count of [0] means the object has been
    destroyed (or its constructor threw); the entry stays in the store, as
    the history of what was allocated. *)
Record Shared (A : Type) : Type := mkShared {
  use_count : nat;
  object : A
}.
Arguments mkShared {A} _ _.
Arguments use_count {A} _.
Arguments object {A} _.

(** An owning reference ([std::shared_ptr]) held in a variable of the client
    program, by the identity of the object it owns. *)
Inductive Ref : Set :=
| RLib (l : nat)
| RConn (c : nat)
| RStmt (s : nat).

#[global] Instance Ref_eq_dec : EqDecision Ref.
Proof. solve_decision. Defined.

(** What the native library sees of the wrappers' lifetimes, tagged with the
    wrapper object on whose behalf the call is made, and the member-function
    calls forwarded in between. *)
Inductive Event : Set :=
| Ev_library_init (l : nat) (ret : Z)
| Ev_library_end (l : nat)
| Ev_init (c : nat) (ret : Z)
| Ev_close (c : nat) (mysql : Z)
| Ev_stmt_init (s : nat) (mysql : Z) (ret : Z)
| Ev_stmt_close (s : nat) (stmt : Z)
| Ev_call (c : NativeCall).

#[global] Instance NativeCall_eq_dec : EqDecision NativeCall.
Proof. solve_decision. Defined.
#[global] Instance Event_eq_dec : EqDecision Event.
Proof. solve_decision. Defined.

(** The process: the three stores of allocated objects, the static
    [MySQLClientLibrary::m_instance] (a [std::weak_ptr]: the identity of the
    object it observes, if any), the owning references the client holds, and
    the native calls so far, oldest first. *)
Record World : Type := mkWorld {
  libs : list (Shared MySQLClientLibrary);
  conns : list (Shared MySQLConnection);
  stmts : list (Shared MySQLPreparedStatement);
  m_instance : option nat;
  held : list Ref;
  trace : list Event
}.

Definition initial : World := mkWorld [] [] [] None [] [].

Definition set_libs x (w : World) :=
  mkWorld x (conns w) (stmts w) (m_instance w) (held w) (trace w).
Definition set_conns x (w : World) :=
  mkWorld (libs w) x (stmts w) (m_instance w) (held w) (trace w).
Definition set_stmts x (w : World) :=
  mkWorld (libs w) (conns w) x (m_instance w) (held w) (trace w).
Definition set_instance x (w : World) :=
  mkWorld (libs w) (conns w) (stmts w) x (held w) (trace w).
Definition set_held x (w : World) :=
  mkWorld (libs w) (conns w) (stmts w) (m_instance w) x (trace w).
Definition emit (es : list Event) (w : World) :=
  mkWorld (libs w) (conns w) (stmts w) (m_instance w) (held w) (trace w ++ es).

(** Copying a [shared_ptr] increments the strong count. *)
Definition incr {A} (o : Shared A) : Shared A :=
  mkShared (S (use_count o)) (object o).
Definition with_count {A} (k : nat) (o : Shared A) : Shared A :=
  mkShared k (object o).

Definition acquire_lib (l : nat) (w : World) : World :=
  set_libs (alter incr l (libs w)) w.
Definition acquire_conn (c : nat) (w : World) : World :=
  set_conns (alter incr c (conns w)) w.
Definition acquire_stmt (s : nat) (w : World) : World :=
  set_stmts (alter incr s (stmts w)) w.

(** Releasing a [shared_ptr<MySQLClientLibrary>]: the count drops, and the
    last release runs [~MySQLClientLibrary]. *)
Definition release_lib (l : nat) (w : World) : World :=
  match libs w !! l with
  | Some o =>
      match use_count o with
      | 0 => w
      | S k =>
          let w := set_libs (<[l := with_count k o]> (libs w)) w in
          match k with
          | 0 =>
              if decide (lib_m_errorCode (object o) = 0%Z)
              then emit [Ev_library_end l] w else w
          | S _ => w
          end
      end
  | None => w
  end.

Definition release_lib_opt (l : option nat) (w : World) : World :=
  match l with Some l => release_lib l w | None => w end.
Definition acquire_lib_opt (l : option nat) (w : World) : World :=
  match l with Some l => acquire_lib l w | None => w end.

(** Releasing a [shared_ptr<MySQLConnection>]: the last release runs
    [~MySQLConnection] and then destroys the member [m_library]. *)
Definition release_conn (c : nat) (w : World) : World :=
  match conns w !! c with
  | Some o =>
      match use_count o with
      | 0 => w
      | S k =>
          let w := set_conns (<[c := with_count k o]> (conns w)) w in
          match k with
          | 0 =>
              let w := if decide (m_mysql (object o) = 0%Z) then w
                       else emit [Ev_close c (m_mysql (object o))] w in
              release_lib_opt (m_library (object o)) w
          | S _ => w
          end
      end
  | None => w
  end.

(** Releasing a [shared_ptr<MySQLPreparedStatement>]: the last release runs
    [~MySQLPreparedStatement] and then destroys the member [m_conn]. *)
Definition release_stmt (s : nat) (w : World) : World :=
  match stmts w !! s with
  | Some o =>
      match use_count o with
      | 0 => w
      | S k =>
          let w := set_stmts (<[s := with_count k o]> (stmts w)) w in
          match k with
          | 0 =>
              let w := if decide (m_stmt (object o) = 0%Z) then w
                       else emit [Ev_stmt_close s (m_stmt (object o))] w in
              release_conn (m_conn (object o)) w
          | S _ => w
          end
      end
  | None => w
  end.

Definition acquire (r : Ref) : World -> World :=
  match r with
  | RLib l => acquire_lib l
  | RConn c => acquire_conn c
  | RStmt s => acquire_stmt s
  end.

Definition release (r : Ref) : World -> World :=
  match r with
  | RLib l => release_lib l
  | RConn c => release_conn c
  | RStmt s => release_stmt s
  end.

(** [m_instance.lock()]: the observed object when it is still alive. *)
Definition lock (w : World) : option nat :=
  match m_instance w with
  | Some l =>
      match libs w !! l with
      | Some o => if decide (use_count o = 0) then None else Some l
      | None => None
      end
  | None => None
  end.

(** [MySQLClientLibrary::createOrGet]: the returned reference is handed to
    the caller, which owns it from then on. *)
Definition createOrGet (argc argv groups : Z) (n : Native) (w : World)
    : World * Result nat :=
  match lock w with
  | Some l => (acquire_lib l w, Ok l)
  | None =>
      let l := length (libs w) in
      let e := mysql_library_init n argc argv groups in
      let w := emit [Ev_library_init l e] w in
      if decide (e = 0%Z)
      then (set_instance (Some l)
              (set_libs (libs w ++ [mkShared 1 (mkLib e)]) w), Ok l)
      else (set_libs (libs w ++ [mkShared 0 (mkLib e)]) w,
            Throw (runtime_error "failed to initialize MySQL client library"))
  end.

(** [MySQLConnection::create]: the constructor copies [library] into
    [m_library], calls [mysql_init(nullptr)], and throws when that returns
    null, which destroys [m_library] again. *)
Definition MySQLConnection_create (library : option nat) (n : Native)
    (w : World) : World * Result nat :=
  let c := length (conns w) in
  let w := acquire_lib_opt library w in
  let h := mysql_init n 0%Z in
  let w := emit [Ev_init c h] w in
  if decide (h = 0%Z)
  then (release_lib_opt library
          (set_conns (conns w ++ [mkShared 0 (mkConn library h)]) w),
        Throw (runtime_error "failed to initialize connection object"))
  else (set_conns (conns w ++ [mkShared 1 (mkConn library h)]) w, Ok c).

(** [(MYSQL* )*conn]. *)
Definition conn_handle (w : World) (c : nat) : Z :=
  from_option (fun o => m_mysql (object o)) 0%Z (conns w !! c).

(** [MySQLPreparedStatement::create]. *)
Definition MySQLPreparedStatement_create (conn : nat) (n : Native)
    (w : World) : World * Result nat :=
  let s := length (stmts w) in
  let w := acquire_conn conn w in
  let h := mysql_stmt_init n (conn_handle w conn) in
  let w := emit [Ev_stmt_init s (conn_handle w conn) h] w in
  if decide (h = 0%Z)
  then (release_conn conn
          (set_stmts (stmts w ++ [mkShared 0 (mkStmt conn h [] [] 0%Z)]) w),
        Throw (runtime_error
                 "failed to initialize MySQL prepared statement object"))
  else (set_stmts (stmts w ++ [mkShared 1 (mkStmt conn h [] [] 0%Z)]) w, Ok s).

(** ** Client programs *)

(** One action of a client of the wrappers.  References are named by their
    position in [held]; an action naming a reference the client does not
    hold (or one of the wrong class) is not a program and does nothing. *)
Inductive Op : Type :=
| Op_createOrGet (argc argv groups : Z)
| Op_connection_create (library : option nat)
| Op_statement_create (conn : nat)
| Op_copy (i : nat)
| Op_reset (i : nat)
| Op_conn (i : nat) (m : ConnMethod)
| Op_stmt (i : nat) (m : StmtMethod).

(** The caller keeps the reference a factory returned. *)
Definition keep (mk : nat -> Ref) (r : World * Result nat) : World :=
  match r with
  | (w, Ok i) => set_held (held w ++ [mk i]) w
  | (w, Throw _) => w
  end.

Definition step (n : Native) (op : Op) (w : World) : World :=
  match op with
  | Op_createOrGet argc argv groups =>
      keep RLib (createOrGet argc argv groups n w)
  | Op_connection_create None =>
      keep RConn (MySQLConnection_create None n w)
  | Op_connection_create (Some i) =>
      match held w !! i with
      | Some (RLib l) => keep RConn (MySQLConnection_create (Some l) n w)
      | _ => w
      end
  | Op_statement_create i =>
      match held w !! i with
      | Some (RConn c) => keep RStmt (MySQLPreparedStatement_create c n w)
      | _ => w
      end
  | Op_copy i =>
      match held w !! i with
      | Some r => set_held (held w ++ [r]) (acquire r w)
      | None => w
      end
  | Op_reset i =>
      match held w !! i with
      | Some r => release r (set_held (delete i (held w)) w)
      | None => w
      end
  | Op_conn i m =>
      match held w !! i with
      | Some (RConn c) =>
          match conns w !! c with
          | Some o =>
              let '(o', cs) := call_conn m n (object o) in
              emit (Ev_call <$> cs)
                (set_conns (<[c := mkShared (use_count o) o']> (conns w)) w)
          | None => w
          end
      | _ => w
      end
  | Op_stmt i m =>
      match held w !! i with
      | Some (RStmt s) =>
          match stmts w !! s with
          | Some o =>
              let '(o', cs) := call_stmt m n (object o) in
              emit (Ev_call <$> cs)
                (set_stmts (<[s := mkShared (use_count o) o']> (stmts w)) w)
          | None => w
          end
      | _ => w
      end
  end.

(** A program is a sequence of actions, each paired with what the native
    library answers during it. *)
Fixpoint run (p : list (Native * Op)) (w : World) : World :=
  match p with
  | [] => w
  | (n, op) :: p => run p (step n op w)
  end.

(** A native library whose calls all succeed: handles are [h], status codes
    [0], texts empty. *)
Definition native_ok (h : Z) : Native :=
  mkNative (fun _ _ _ => 0%Z) (fun _ => h) (fun _ => h)
    (fun m _ _ _ _ _ _ _ => m) (fun _ _ => 0%Z) (fun _ => 80000%Z)
    (fun _ => "") (fun _ _ _ => 0%Z) (fun _ _ => 0%Z) (fun _ _ => 0%Z)
    (fun _ => 0%Z) (fun _ => 0%Z) (fun _ => 0%Z) (fun _ => "").

(** A native library whose calls all fail with status [e] (null handles)
    and error text [msg]. *)
Definition native_failing (e : Z) (msg : string) : Native :=
  mkNative (fun _ _ _ => e) (fun _ => 0%Z) (fun _ => 0%Z)
    (fun _ _ _ _ _ _ _ _ => 0%Z) (fun _ _ => e) (fun _ => 0%Z)
    (fun _ => msg) (fun _ _ _ => e) (fun _ _ => e) (fun _ _ => e)
    (fun _ => e) (fun _ => e) (fun _ => e) (fun _ => msg).

(** Two client programs.  [program_chain] acquires the library, a
    connection and a statement, registers and binds a parameter, then drops
    its references to the library and to the connection first and to the
    statement last.  [program_empty_library] creates its connection from an
    empty library reference and drops the library first. *)
Definition program_chain : list (Native * Op) :=
  let n := native_ok 7 in
  [(n, Op_createOrGet 0 0 0); (n, Op_connection_create (Some 0));
   (n, Op_statement_create 1);
   (n, Op_stmt 2 (M_addParameter MYSQL_TYPE_LONG 16 4));
   (n, Op_stmt 2 M_bindParameters);
   (n, Op_reset 0); (n, Op_reset 0); (n, Op_reset 0)].


(** ** Vocabulary of the statements *)

(** [contains t m]: the text [t] occurs in the message [m]. *)
Fixpoint contains (t m : string) : bool :=
  String.prefix t m ||
  match m with
  | EmptyString => false
  | String _ m' => contains t m'
  end.

(** A failure whose message carries the text [text]. *)
Definition reports_text {S A} (o : Outcome S A) (text : string) : Prop :=
  exists m, result o = Throw (runtime_error m) /\ contains text m = true.

(** The C++ argument types of the typed registration helpers: a reference
    to a fundamental type, or a pointer with a byte count. *)
Inductive CppType : Set :=
| T_char | T_short | T_int | T_long_long | T_float | T_double
| T_void_ptr | T_char_ptr.

(** The buffer-type tag the native API assigns to each C type (the table of
    the C API's prepared-statement type codes): the tag the helpers are
    compared with. *)
Definition native_buffer_type (t : CppType) : enum_field_types :=
  match t with
  | T_char => MYSQL_TYPE_TINY
  | T_short => MYSQL_TYPE_SHORT
  | T_int => MYSQL_TYPE_LONG
  | T_long_long => MYSQL_TYPE_LONGLONG
  | T_float => MYSQL_TYPE_FLOAT
  | T_double => MYSQL_TYPE_DOUBLE
  | T_void_ptr => MYSQL_TYPE_BLOB
  | T_char_ptr => MYSQL_TYPE_STRING
  end.

(** Overload resolution: the helper chosen for an argument of type [t]
    ([size] is the second argument of the pointer overloads). *)
Definition addParameter_typed (t : CppType) (value size : Z) :=
  match t with
  | T_char => addParameter_char value
  | T_short => addParameter_short value
  | T_int => addParameter_int value
  | T_long_long => addParameter_long_long value
  | T_float => addParameter_float value
  | T_double => addParameter_double value
  | T_void_ptr => addParameter_blob value size
  | T_char_ptr => addParameter_string value size
  end.

Definition addResult_typed (t : CppType) (value size : Z) :=
  match t with
  | T_char => addResult_char value
  | T_short => addResult_short value
  | T_int => addResult_int value
  | T_long_long => addResult_long_long value
  | T_float => addResult_float value
  | T_double => addResult_double value
  | T_void_ptr => addResult_blob value size
  | T_char_ptr => addResult_string value size
  end.

(** The tag of the descriptor registered last. *)
Definition last_tag (bs : list MYSQL_BIND) : option enum_field_types :=
  buffer_type <$> last bs.

(** The descriptor that holds exactly a tag, a buffer pointer and a buffer
    length, every other field being zero. *)
Definition descriptor (t : enum_field_types) (buf len : Z) : MYSQL_BIND :=
  mkBind 0 0 buf 0 0 0 0 0 len 0 0 0 0 t 0 0 0 0 0.

(** A registration call, and a sequence of them applied in order. *)
Inductive Registration : Set :=
| Reg_parameter (t : enum_field_types) (buf len : Z)
| Reg_result (t : enum_field_types) (buf len : Z).

Definition register (s : MySQLPreparedStatement) (r : Registration) :=
  match r with
  | Reg_parameter t b l => addParameter t b l s
  | Reg_result t b l => addResult t b l s
  end.

Definition reg_length (r : Registration) : Z :=
  match r with Reg_parameter _ _ l | Reg_result _ _ l => l end.

Definition parameters_of (rs : list Registration) : list MYSQL_BIND :=
  omap (fun r => match r with
                 | Reg_parameter t b l => Some (descriptor t b l)
                 | Reg_result _ _ _ => None
                 end) rs.

Definition results_of (rs : list Registration) : list MYSQL_BIND :=
  omap (fun r => match r with
                 | Reg_result t b l => Some (descriptor t b l)
                 | Reg_parameter _ _ _ => None
                 end) rs.

(** Two descriptors that differ at most in [buffer_length]. *)
Definition same_but_length (p q : MYSQL_BIND) : Prop :=
  set_buffer_length 0 p = set_buffer_length 0 q.

(** *** Ownership bookkeeping *)

Fixpoint count_if {A} (f : A -> bool) (l : list A) : nat :=
  match l with
  | [] => 0
  | x :: l => (if f x then 1 else 0) + count_if f l
  end.

Definition alive {A} (o : Shared A) : bool :=
  negb (Nat.eqb (use_count o) 0).

(** The strong count of an object, [0] for an identity never allocated. *)
Definition uc_lib (w : World) (l : nat) : nat :=
  from_option use_count 0 (libs w !! l).
Definition uc_conn (w : World) (c : nat) : nat :=
  from_option use_count 0 (conns w !! c).
Definition uc_stmt (w : World) (s : nat) : nat :=
  from_option use_count 0 (stmts w !! s).

(** The owners of an object: references held by the client, ... *)
Definition held_count (w : World) (r : Ref) : nat :=
  count_if (fun r' => bool_decide (r' = r)) (held w).

(** ... living statements whose [m_conn] owns the connection, ... *)
Definition stmt_deps (w : World) (c : nat) : nat :=
  count_if (fun o => alive o && bool_decide (m_conn (object o) = c)) (stmts w).

(** ... and living connections whose [m_library] owns the library. *)
Definition conn_deps (w : World) (l : nat) : nat :=
  count_if (fun o => alive o && bool_decide (m_library (object o) = Some l))
    (conns w).

(** A reference in flight: copied or detached, and not yet stored in a
    variable or released. *)
Definition pend (p : option Ref) (r : Ref) : nat :=
  if decide (p = Some r) then 1 else 0.

(** Every occurrence of [b] in the trace comes after an occurrence of [a]. *)
Definition precedes (a b : Event) (t : list Event) : Prop :=
  forall t1 t2, t = t1 ++ b :: t2 -> In a t1.

(** Each strong count is the number of owners. *)
Definition counts_owners (p : option Ref) (w : World) : Prop :=
  (forall s, uc_stmt w s = held_count w (RStmt s) + pend p (RStmt s)) /\
  (forall c, uc_conn w c =
             held_count w (RConn c) + stmt_deps w c + pend p (RConn c)) /\
  (forall l, uc_lib w l =
             held_count w (RLib l) + conn_deps w l + pend p (RLib l)).

(** A living object was constructed: its handle is not null, its
    initialisation succeeded; and [m_instance] observes the living library. *)
Definition constructed (w : World) : Prop :=
  (forall s o, stmts w !! s = Some o -> use_count o <> 0 ->
     m_stmt (object o) <> 0%Z) /\
  (forall c o, conns w !! c = Some o -> use_count o <> 0 ->
     m_mysql (object o) <> 0%Z) /\
  (forall l o, libs w !! l = Some o -> use_count o <> 0 ->
     lib_m_errorCode (object o) = 0%Z /\ m_instance w = Some l).

Definition once (dead : bool) : nat := if dead then 1 else 0.

(** The native resource of a constructed object has been released once if
    the object has no owner left, and not at all otherwise. *)
Definition released_once (w : World) : Prop :=
  (forall s o, stmts w !! s = Some o -> m_stmt (object o) <> 0%Z ->
     count_occ Event_eq_dec (trace w) (Ev_stmt_close s (m_stmt (object o)))
     = once (negb (alive o))) /\
  (forall c o, conns w !! c = Some o -> m_mysql (object o) <> 0%Z ->
     count_occ Event_eq_dec (trace w) (Ev_close c (m_mysql (object o)))
     = once (negb (alive o))) /\
  (forall l o, libs w !! l = Some o -> lib_m_errorCode (object o) = 0%Z ->
     count_occ Event_eq_dec (trace w) (Ev_library_end l)
     = once (negb (alive o))).

(** Release calls are made for destroyed objects only, and what
    [mysql_library_init] returned is what the object stores. *)
Definition trace_sound (w : World) : Prop :=
  (forall s h, In (Ev_stmt_close s h) (trace w) ->
     exists o, stmts w !! s = Some o /\ use_count o = 0) /\
  (forall c h, In (Ev_close c h) (trace w) ->
     exists o, conns w !! c = Some o /\ use_count o = 0) /\
  (forall l, In (Ev_library_end l) (trace w) ->
     exists o, libs w !! l = Some o /\ use_count o = 0 /\
               lib_m_errorCode (object o) = 0%Z) /\
  (forall l e, In (Ev_library_init l e) (trace w) ->
     exists o, libs w !! l = Some o /\ lib_m_errorCode (object o) = e).

(** Releases follow the ownership chain: a statement's handle is closed
    before the connection it owns, a connection's before the library it
    owns is ended. *)
Definition release_order (w : World) : Prop :=
  (forall s o c, stmts w !! s = Some o -> m_stmt (object o) <> 0%Z ->
     conns w !! m_conn (object o) = Some c ->
     precedes (Ev_stmt_close s (m_stmt (object o)))
              (Ev_close (m_conn (object o)) (m_mysql (object c))) (trace w)) /\
  (forall c o l, conns w !! c = Some o -> m_mysql (object o) <> 0%Z ->
     m_library (object o) = Some l ->
     precedes (Ev_close c (m_mysql (object o))) (Ev_library_end l) (trace w)).


(** Events that neither release a resource nor initialise the library. *)
Definition neutral (e : Event) : bool :=
  match e with
  | Ev_call _ | Ev_init _ _ | Ev_stmt_init _ _ _ => true
  | _ => false
  end.

(** The invariant of the process, with at most one reference in flight. *)
Record Inv (p : option Ref) (w : World) : Prop := mkInv {
  inv_counts : counts_owners p w;
  inv_constructed : constructed w;
  inv_once : released_once w;
  inv_sound : trace_sound w;
  inv_order : release_order w
}.

(** *** Further vocabulary *)

(** The byte count a typed helper records: [sizeof] of the referenced
    type, or, for the pointer overloads, the count passed with the pointer. *)
Definition sizeof_typed (t : CppType) (size : Z) : Z :=
  match t with
  | T_char => sizeof_char
  | T_short => sizeof_short
  | T_int => sizeof_int
  | T_long_long => sizeof_long_long
  | T_float => sizeof_float
  | T_double => sizeof_double
  | T_void_ptr | T_char_ptr => size
  end.

(** No character of the text is NUL. *)
Fixpoint nul_free (s : string) : bool :=
  match s with
  | EmptyString => true
  | String a s' => if decide (a = Ascii.zero) then false else nul_free s'
  end.

(** The native call an operation forwards, followed by the call of
    [mysql_stmt_error] that builds the message when it failed. *)
Definition forwarded (c : NativeCall) (status stmt : Z) : list NativeCall :=
  c :: (if decide (status = 0%Z) then [] else [Call_mysql_stmt_error stmt]).

(** Every constructed object of the store was acquired: the trace holds
    the initialisation call that returned its handle. *)
Definition acquired (w : World) : Prop :=
  (forall s o, stmts w !! s = Some o -> m_stmt (object o) <> 0%Z ->
     exists hc, In (Ev_stmt_init s hc (m_stmt (object o))) (trace w)) /\
  (forall c o, conns w !! c = Some o -> m_mysql (object o) <> 0%Z ->
     In (Ev_init c (m_mysql (object o))) (trace w)) /\
  (forall l o, libs w !! l = Some o -> lib_m_errorCode (object o) = 0%Z ->
     In (Ev_library_init l 0) (trace w)).

(** Every release in the trace is of a non-null handle and comes after the
    initialisation call that returned that handle to the same object. *)
Definition release_after_acquire (t : list Event) : Prop :=
  (forall s h t1 t2, t = t1 ++ Ev_stmt_close s h :: t2 ->
     h <> 0%Z /\ exists hc, In (Ev_stmt_init s hc h) t1) /\
  (forall c h t1 t2, t = t1 ++ Ev_close c h :: t2 ->
     h <> 0%Z /\ In (Ev_init c h) t1) /\
  (forall l t1 t2, t = t1 ++ Ev_library_end l :: t2 ->
     In (Ev_library_init l 0) t1).

(** The events that release a native resource. *)
Definition is_release (e : Event) : bool :=
  match e with
  | Ev_stmt_close _ _ | Ev_close _ _ | Ev_library_end _ => true
  | _ => false
  end.

(** The objects of [w'] are those of [w]: same handles, same members of
    the connections and of the libraries. *)
Definition same_objects (w w' : World) : Prop :=
  (forall s o', stmts w' !! s = Some o' ->
     exists o, stmts w !! s = Some o
       /\ m_stmt (object o) = m_stmt (object o')) /\
  (forall c o', conns w' !! c = Some o' ->
     exists o, conns w !! c = Some o /\ object o = object o') /\
  (forall l o', libs w' !! l = Some o' ->
     exists o, libs w !! l = Some o /\ object o = object o').

Definition Paired (w : World) : Prop :=
  acquired w /\ release_after_acquire (trace w).

(** * Properties of the member functions *)

Lemma to_ulong_size_t x : is_size_t x -> to_ulong x = x.
Proof. unfold is_size_t, to_ulong. intros H. apply Z.mod_small. exact H. Qed.

Lemma prefix_app t m : String.prefix t (t +:+ m) = true.
Proof.
  induction t as [|a t IH]; simpl.
  - destruct m; reflexivity.
  - destruct (Ascii.ascii_dec a a); [exact IH | congruence].
Qed.

Lemma append_empty_r t : t +:+ "" = t.
Proof.
  induction t as [|a t IH]; [reflexivity|].
  change (String a (t +:+ "") = String a t). f_equal. exact IH.
Qed.

Lemma contains_prefix t m : String.prefix t m = true -> contains t m = true.
Proof. intros H. destruct m; simpl in *; rewrite H; reflexivity. Qed.

Lemma contains_app p t : contains t (p +:+ t) = true.
Proof.
  induction p as [|a p IH]; simpl.
  - apply contains_prefix. change ("" +:+ t) with t.
    pose proof (prefix_app t "") as H. rewrite append_empty_r in H. exact H.
  - change (String a p +:+ t) with (String a (p +:+ t)). simpl.
    rewrite IH. apply orb_true_r.
Qed.

Lemma addParameter_spec t b l s :
  addParameter t b l s =
  set_parameters (m_parameters s ++ [descriptor t b (to_ulong l)]) s.
Proof. reflexivity. Qed.

Lemma addResult_spec t b l s :
  addResult t b l s =
  set_results (m_results s ++ [descriptor t b (to_ulong l)]) s.
Proof. reflexivity. Qed.

Lemma zeroed_bind_tag_code : field_type_code (buffer_type zeroed_bind) = 0%Z.
Proof. reflexivity. Qed.

(** The four operations that assign [m_errorCode] store what the native
    call returned, whether it failed or not. *)
Lemma native_code_stored n s sql len :
  getErrorCode (state_after (prepare_cstr sql len n s))
  = mysql_stmt_prepare n (m_stmt s) sql
      (to_ulong (if decide (len = npos) then Z.of_nat (strlen sql) else len))
  /\ (m_parameters s <> [] ->
      getErrorCode (state_after (bindParameters n s))
      = mysql_stmt_bind_param n (m_stmt s) (m_parameters s))
  /\ (m_results s <> [] ->
      getErrorCode (state_after (bindResults n s))
      = mysql_stmt_bind_result n (m_stmt s) (m_results s))
  /\ getErrorCode (state_after (execute n s)) = mysql_stmt_execute n (m_stmt s).
Proof.
  unfold prepare_cstr, bindParameters, bindResults, execute.
  repeat split.
  - destruct (decide (mysql_stmt_prepare _ _ _ _ = 0%Z)); reflexivity.
  - intros Hne. destruct (m_parameters s); [contradiction|].
    destruct (decide _); reflexivity.
  - intros Hne. destruct (m_results s); [contradiction|].
    destruct (decide _); reflexivity.
  - destruct (decide _); reflexivity.
Qed.

Lemma last_tag_snoc bs b : last_tag (bs ++ [b]) = Some (buffer_type b).
Proof. unfold last_tag. rewrite last_snoc. reflexivity. Qed.

(** C1 (the code at the failing input): [addParameter(const double&)]
    records [MYSQL_TYPE_FLOAT], with the length of a double, where the
    native tag of a double, recorded by [addResult(double&)], is
    [MYSQL_TYPE_DOUBLE]; every other typed helper, and every typed result
    helper, records the native tag of its argument type. *)
Theorem C1_addParameter_double_records_float (value size : Z)
    (s : MySQLPreparedStatement) :
  last_tag (m_parameters (addParameter_double value s)) = Some MYSQL_TYPE_FLOAT
  /\ (buffer_length <$> last (m_parameters (addParameter_double value s)))
     = Some sizeof_double
  /\ last_tag (m_parameters (addParameter_double value s))
     <> Some (native_buffer_type T_double)
  /\ last_tag (m_results (addResult_double value s)) = Some MYSQL_TYPE_DOUBLE
  /\ (forall t, t <> T_double ->
        last_tag (m_parameters (addParameter_typed t value size s))
        = Some (native_buffer_type t))
  /\ (forall t,
        last_tag (m_results (addResult_typed t value size s))
        = Some (native_buffer_type t)).
Proof.
  unfold addParameter_double, addResult_double.
  rewrite addParameter_spec, addResult_spec. simpl.
  rewrite !last_tag_snoc, last_snoc. simpl.
  repeat split; try reflexivity; try discriminate.
  - intros t Ht. destruct t; try congruence;
      unfold addParameter_typed, addParameter_char, addParameter_short,
        addParameter_int, addParameter_long_long, addParameter_float,
        addParameter_blob, addParameter_string;
      rewrite addParameter_spec; simpl; apply last_tag_snoc.
  - intros t. destruct t;
      unfold addResult_typed, addResult_char, addResult_short,
        addResult_int, addResult_long_long, addResult_float, addResult_double,
        addResult_blob, addResult_string;
      rewrite addResult_spec; simpl; apply last_tag_snoc.
Qed.

(** C2, as stated, fails: when the native calls fail with the error text
    "Access denied", the failures reported by [connect], [setAutoCommit],
    [fetch] and [stop] do not carry that text. *)
Lemma C2_fixed_messages_counterexample :
  let n := native_failing 1 "Access denied" in
  let c := mkConn None 7 in
  let s := mkStmt 0 9 [] [] 0 in
  mysql_real_connect n 7 "host" "user" None "db" 3306 None 0 = 0%Z
  /\ ~ reports_text (connect "host" 3306 "db" "user" None 0 n c) (mysql_error n 7)
  /\ mysql_autocommit n 7 1 <> 0%Z
  /\ ~ reports_text (setAutoCommit true n c) (mysql_error n 7)
  /\ mysql_stmt_fetch n 9 <> 0%Z /\ mysql_stmt_fetch n 9 <> MYSQL_NO_DATA
  /\ ~ reports_text (fetch n s) (mysql_stmt_error n 9)
  /\ mysql_stmt_free_result n 9 <> 0%Z
  /\ ~ reports_text (stop n s) (mysql_stmt_error n 9).
Proof.
  cbv zeta. unfold reports_text.
  repeat split; try (simpl; discriminate);
    intros (m & Hm & Hc); vm_compute in Hm; injection Hm as <-;
    vm_compute in Hc; discriminate.
Qed.

(** C2 (amended): whenever the native call returns non-zero, [prepare],
    [bindParameters], [bindResults] and [execute] throw a runtime error
    whose message is a fixed prefix followed by the text of
    [mysql_stmt_error], and nothing else, so that the message carries that
    text; [connect] (native result null), [setAutoCommit] and [stop]
    (native result non-zero) and [fetch] (native result neither [0] nor
    [MYSQL_NO_DATA]) throw a runtime error whose message is the wrapper's
    own fixed text. *)
Theorem C2_native_text_in_statement_errors (n : Native)
    (s : MySQLPreparedStatement) (c : MySQLConnection) :
  (forall sql len,
     let len' := if decide (len = npos) then Z.of_nat (strlen sql) else len in
     mysql_stmt_prepare n (m_stmt s) sql (to_ulong len') <> 0%Z ->
     result (prepare_cstr sql len n s)
     = Throw (runtime_error ("failed to prepare prepared statement: "
                               +:+ mysql_stmt_error n (m_stmt s)))
     /\ reports_text (prepare_cstr sql len n s) (mysql_stmt_error n (m_stmt s)))
  /\ (m_parameters s <> [] ->
      mysql_stmt_bind_param n (m_stmt s) (m_parameters s) <> 0%Z ->
      result (bindParameters n s)
      = Throw (runtime_error ("failed to bind parameters prepared statement: "
                                +:+ mysql_stmt_error n (m_stmt s)))
      /\ reports_text (bindParameters n s) (mysql_stmt_error n (m_stmt s)))
  /\ (m_results s <> [] ->
      mysql_stmt_bind_result n (m_stmt s) (m_results s) <> 0%Z ->
      result (bindResults n s)
      = Throw (runtime_error ("failed to bind results prepared statement: "
                                +:+ mysql_stmt_error n (m_stmt s)))
      /\ reports_text (bindResults n s) (mysql_stmt_error n (m_stmt s)))
  /\ (mysql_stmt_execute n (m_stmt s) <> 0%Z ->
      result (execute n s)
      = Throw (runtime_error ("failed to execute prepared statement: "
                                +:+ mysql_stmt_error n (m_stmt s)))
      /\ reports_text (execute n s) (mysql_stmt_error n (m_stmt s)))
  /\ (forall host port db user pw flags,
      mysql_real_connect n (m_mysql c) host user pw db port None flags = 0%Z ->
      result (connect host port db user pw flags n c)
      = Throw (runtime_error "could not connect to database server"))
  /\ (forall a : bool,
      mysql_autocommit n (m_mysql c) (if a then 1 else 0)%Z <> 0%Z ->
      result (setAutoCommit a n c)
      = Throw (runtime_error ("could not set autocommit mode to "
                                +:+ (if a then "on" else "off"))))
  /\ (mysql_stmt_fetch n (m_stmt s) <> 0%Z ->
      mysql_stmt_fetch n (m_stmt s) <> MYSQL_NO_DATA ->
      result (fetch n s) = Throw (runtime_error "failed to fetch data"))
  /\ (mysql_stmt_free_result n (m_stmt s) <> 0%Z ->
      result (stop n s)
      = Throw (runtime_error "failed to stop prepared statement")).
Proof.
  assert (Hcarry : forall (o : Outcome MySQLPreparedStatement unit) pre t,
            result o = Throw (runtime_error (pre +:+ t)) ->
            result o = Throw (runtime_error (pre +:+ t)) /\ reports_text o t).
  { intros o pre t E. split; [exact E|]. exists (pre +:+ t).
    split; [exact E | apply contains_app]. }
  unfold prepare_cstr, bindParameters, bindResults, execute,
    connect, setAutoCommit, fetch, stop.
  split; [|split; [|split; [|split; [|split; [|split; [|split]]]]]].
  - intros sql len; cbv zeta; intros H. apply Hcarry.
    destruct (decide (mysql_stmt_prepare _ _ _ _ = 0%Z)); [contradiction|].
    reflexivity.
  - intros Hne H. apply Hcarry.
    destruct (m_parameters s) eqn:E; [contradiction|].
    destruct (decide _); [contradiction|]. reflexivity.
  - intros Hne H. apply Hcarry.
    destruct (m_results s) eqn:E; [contradiction|].
    destruct (decide _); [contradiction|]. reflexivity.
  - intros H. apply Hcarry.
    destruct (decide _); [contradiction|]. reflexivity.
  - intros * H. simpl. destruct (decide _); [reflexivity | contradiction].
  - intros a H. simpl. destruct (decide _); [contradiction | reflexivity].
  - intros H1 H2. simpl. destruct (decide _); [contradiction|].
    destruct (decide _); [contradiction | reflexivity].
  - intros H. simpl. destruct (decide _); [contradiction | reflexivity].
Qed.

Lemma C2_native_text_in_statement_errors_witness :
  result (execute (native_failing 1 "Unknown column") (mkStmt 0 9 [] [] 0))
  = Throw (runtime_error "failed to execute prepared statement: Unknown column")
  /\ reports_text
       (execute (native_failing 1 "Unknown column") (mkStmt 0 9 [] [] 0))
       "Unknown column".
Proof.
  refine (proj1 (proj2 (proj2 (proj2
    (C2_native_text_in_statement_errors
       (native_failing 1 "Unknown column") (mkStmt 0 9 [] [] 0)
       (mkConn None 7))))) _).
  simpl. discriminate.
Defined.

(** C3: [fetch] makes the one native fetch call and is tri-state on what it
    returns: [true] exactly for [0], [false] exactly for [MYSQL_NO_DATA],
    and a thrown error exactly for every other value; the statement is left
    as it was. *)
Theorem C3_fetch_tri_state (n : Native) (s : MySQLPreparedStatement) :
  let res := mysql_stmt_fetch n (m_stmt s) in
  (result (fetch n s) = Ok true <-> res = 0%Z)
  /\ (result (fetch n s) = Ok false <-> res = MYSQL_NO_DATA)
  /\ (throws (result (fetch n s)) <-> res <> 0%Z /\ res <> MYSQL_NO_DATA)
  /\ calls (fetch n s) = [Call_mysql_stmt_fetch (m_stmt s)]
  /\ state_after (fetch n s) = s.
Proof.
  cbv zeta. unfold fetch. simpl.
  destruct (decide (mysql_stmt_fetch n (m_stmt s) = 0%Z)) as [E0|N0];
    [|destruct (decide (mysql_stmt_fetch n (m_stmt s) = MYSQL_NO_DATA))
        as [E1|N1]]; simpl.
  - rewrite E0. unfold MYSQL_NO_DATA.
    repeat split; try congruence; try discriminate; try tauto; intros; lia.
  - repeat split; try congruence; try discriminate; tauto.
  - repeat split; try congruence; try discriminate; tauto.
Qed.

(** C7: [connect] and [setAutoCommit] make exactly one native call, with
    the connection's handle and the arguments given, and throw exactly when
    it returns null, respectively non-zero; [getServerVersion] makes exactly
    one native call and returns its result. *)
Theorem C7_connection_forwards (n : Native) (c : MySQLConnection)
    (host : string) (port : Z) (db user : string) (pw : option string)
    (flags : Z) (a : bool) :
  calls (connect host port db user pw flags n c)
  = [Call_mysql_real_connect (m_mysql c) host user pw db port None flags]
  /\ (throws (result (connect host port db user pw flags n c))
      <-> mysql_real_connect n (m_mysql c) host user pw db port None flags = 0%Z)
  /\ state_after (connect host port db user pw flags n c) = c
  /\ calls (setAutoCommit a n c)
     = [Call_mysql_autocommit (m_mysql c) (if a then 1 else 0)%Z]
  /\ (throws (result (setAutoCommit a n c))
      <-> mysql_autocommit n (m_mysql c) (if a then 1 else 0)%Z <> 0%Z)
  /\ state_after (setAutoCommit a n c) = c
  /\ getServerVersion n c
     = ([Call_mysql_get_server_version (m_mysql c)],
        mysql_get_server_version n (m_mysql c)).
Proof.
  unfold connect, setAutoCommit, getServerVersion. simpl.
  repeat split; try (destruct (decide _); simpl; tauto).
Qed.

Lemma register_all_parameters rs s :
  m_parameters (fold_left register rs s)
  = m_parameters s
    ++ parameters_of ((fun r => match r with
                        | Reg_parameter t b l => Reg_parameter t b (to_ulong l)
                        | Reg_result t b l => Reg_result t b (to_ulong l)
                        end) <$> rs).
Proof.
  revert s. induction rs as [|r rs IH]; intros s; simpl.
  - now rewrite app_nil_r.
  - rewrite IH. destruct r; simpl; [|reflexivity].
    now rewrite <- app_assoc.
Qed.

Lemma register_all_results rs s :
  m_results (fold_left register rs s)
  = m_results s
    ++ results_of ((fun r => match r with
                     | Reg_parameter t b l => Reg_parameter t b (to_ulong l)
                     | Reg_result t b l => Reg_result t b (to_ulong l)
                     end) <$> rs).
Proof.
  revert s. induction rs as [|r rs IH]; intros s; simpl.
  - now rewrite app_nil_r.
  - rewrite IH. destruct r; simpl; [reflexivity|].
    now rewrite <- app_assoc.
Qed.

Lemma to_ulong_all rs :
  Forall (fun r => is_size_t (reg_length r)) rs ->
  (fun r => match r with
            | Reg_parameter t b l => Reg_parameter t b (to_ulong l)
            | Reg_result t b l => Reg_result t b (to_ulong l)
            end) <$> rs = rs.
Proof.
  induction 1 as [|r rs Hr _ IH]; [reflexivity|].
  rewrite fmap_cons. f_equal; [|exact IH].
  destruct r; simpl in Hr; now rewrite (to_ulong_size_t _ Hr).
Qed.

(** C8: [addParameter] appends one descriptor at the end of the parameter
    sequence, and [addResult] one at the end of the result sequence; the
    descriptor holds the given tag, pointer and length and zero elsewhere;
    nothing else of the statement changes; and after any sequence of calls
    each sequence lists its descriptors in call order.  Lengths are
    [std::size_t] values. *)
Theorem C8_registration_appends (t : enum_field_types) (buf len : Z)
    (rs : list Registration) (s : MySQLPreparedStatement) :
  is_size_t len ->
  Forall (fun r => is_size_t (reg_length r)) rs ->
  addParameter t buf len s
  = set_parameters (m_parameters s ++ [descriptor t buf len]) s
  /\ addResult t buf len s
     = set_results (m_results s ++ [descriptor t buf len]) s
  /\ buffer_type (descriptor t buf len) = t
  /\ buffer (descriptor t buf len) = buf
  /\ buffer_length (descriptor t buf len) = len
  /\ set_buffer_length 0 (set_buffer 0 (set_buffer_type MYSQL_TYPE_DECIMAL
       (descriptor t buf len))) = zeroed_bind
  /\ m_parameters (fold_left register rs s)
     = m_parameters s ++ parameters_of rs
  /\ m_results (fold_left register rs s) = m_results s ++ results_of rs.
Proof.
  intros Hl Hrs.
  rewrite addParameter_spec, addResult_spec, (to_ulong_size_t _ Hl).
  rewrite register_all_parameters, register_all_results, (to_ulong_all _ Hrs).
  repeat split; reflexivity.
Qed.

Lemma C8_registration_appends_witness :
  m_parameters (fold_left register
     [Reg_parameter MYSQL_TYPE_LONG 16 4; Reg_result MYSQL_TYPE_STRING 32 10;
      Reg_parameter MYSQL_TYPE_BLOB 48 100] (mkStmt 0 9 [] [] 0))
  = [descriptor MYSQL_TYPE_LONG 16 4; descriptor MYSQL_TYPE_BLOB 48 100].
Proof.
  refine (proj1 (proj2 (proj2 (proj2 (proj2 (proj2 (proj2
    (C8_registration_appends MYSQL_TYPE_LONG 16 4
       [Reg_parameter MYSQL_TYPE_LONG 16 4; Reg_result MYSQL_TYPE_STRING 32 10;
        Reg_parameter MYSQL_TYPE_BLOB 48 100] (mkStmt 0 9 [] [] 0) _ _)))))))).
  - unfold is_size_t, ulong_bits. lia.
  - repeat constructor; unfold is_size_t, ulong_bits; simpl; lia.
Defined.

(** C9: with no parameter registered [bindParameters], and with no result
    registered [bindResults], throws the logic error, makes no native call,
    and leaves the statement (the stored error code and both descriptor
    sequences included) as it was. *)
Theorem C9_bind_nothing_registered (n : Native) (s : MySQLPreparedStatement) :
  (m_parameters s = [] ->
     bindParameters n s
     = mkOutcome s [] (Throw (logic_error "there are no parameters")))
  /\ (m_results s = [] ->
     bindResults n s
     = mkOutcome s [] (Throw (logic_error "there are no results"))).
Proof.
  unfold bindParameters, bindResults.
  split; intros ->; reflexivity.
Qed.

Lemma C9_bind_nothing_registered_witness :
  bindParameters (native_failing 1 "x") (mkStmt 0 9 [] [descriptor MYSQL_TYPE_LONG 16 4] 5)
  = mkOutcome (mkStmt 0 9 [] [descriptor MYSQL_TYPE_LONG 16 4] 5) []
      (Throw (logic_error "there are no parameters")).
Proof.
  apply (C9_bind_nothing_registered (native_failing 1 "x")
           (mkStmt 0 9 [] [descriptor MYSQL_TYPE_LONG 16 4] 5)).
  reflexivity.
Defined.

(** C10: [setParameterLength] is bounds-checked.  For an index below the
    number of parameters it succeeds without a native call, stores the
    length in the descriptor at that index and changes nothing else of that
    descriptor, no other descriptor, and nothing else of the statement;
    for any other index it throws [std::out_of_range] and the statement is
    unchanged. *)
Theorem C10_setParameterLength_bounds (index : nat) (len : Z)
    (s : MySQLPreparedStatement) :
  let o := setParameterLength index len s in
  (index < length (m_parameters s) ->
     result o = Ok tt /\ calls o = []
     /\ length (m_parameters (state_after o)) = length (m_parameters s)
     /\ (exists p q, m_parameters s !! index = Some p
           /\ m_parameters (state_after o) !! index = Some q
           /\ buffer_length q = to_ulong len
           /\ buffer_type q = buffer_type p /\ buffer q = buffer p
           /\ same_but_length p q)
     /\ (forall j, j <> index ->
           m_parameters (state_after o) !! j = m_parameters s !! j)
     /\ set_parameters (m_parameters s) (state_after o) = s)
  /\ (is_size_t len -> to_ulong len = len)
  /\ (length (m_parameters s) <= index ->
      o = mkOutcome s [] (Throw out_of_range)).
Proof.
  cbv zeta. unfold setParameterLength. repeat split.
  - destruct (m_parameters s !! index) eqn:E; [reflexivity|].
    apply lookup_ge_None in E. lia.
  - destruct (m_parameters s !! index) eqn:E; reflexivity.
  - destruct (m_parameters s !! index) eqn:E; [|reflexivity].
    simpl. apply length_insert.
  - destruct (m_parameters s !! index) as [p|] eqn:E.
    + exists p, (set_buffer_length (to_ulong len) p). simpl.
      rewrite list_lookup_insert_eq by assumption.
      repeat split; reflexivity.
    + apply lookup_ge_None in E. lia.
  - intros j Hj. destruct (m_parameters s !! index) eqn:E; [|reflexivity].
    simpl. apply list_lookup_insert_ne. congruence.
  - destruct (m_parameters s !! index) eqn:E; destruct s; reflexivity.
  - apply to_ulong_size_t.
  - intros H. apply lookup_ge_None in H. rewrite H. reflexivity.
Qed.

Lemma C10_setParameterLength_bounds_witness :
  result (setParameterLength 1 7
            (mkStmt 0 9 [descriptor MYSQL_TYPE_LONG 16 4;
                         descriptor MYSQL_TYPE_STRING 32 10] [] 0)) = Ok tt
  /\ setParameterLength 2 7
       (mkStmt 0 9 [descriptor MYSQL_TYPE_LONG 16 4;
                    descriptor MYSQL_TYPE_STRING 32 10] [] 0)
     = mkOutcome (mkStmt 0 9 [descriptor MYSQL_TYPE_LONG 16 4;
                              descriptor MYSQL_TYPE_STRING 32 10] [] 0)
         [] (Throw out_of_range).
Proof.
  split.
  - apply (C10_setParameterLength_bounds 1 7
             (mkStmt 0 9 [descriptor MYSQL_TYPE_LONG 16 4;
                          descriptor MYSQL_TYPE_STRING 32 10] [] 0)).
    simpl. lia.
  - apply (C10_setParameterLength_bounds 2 7
             (mkStmt 0 9 [descriptor MYSQL_TYPE_LONG 16 4;
                          descriptor MYSQL_TYPE_STRING 32 10] [] 0)).
    simpl. lia.
Defined.

(** * Ownership: lists, counts and traces *)

Section lists.
Context {A : Type}.
Implicit Types (l : list A) (f : A -> bool).

Lemma count_if_app f l1 l2 :
  count_if f (l1 ++ l2) = count_if f l1 + count_if f l2.
Proof. induction l1 as [|x l1 IH]; simpl; [reflexivity | lia]. Qed.

Lemma count_if_insert f l i x y :
  l !! i = Some x ->
  count_if f (<[i := y]> l) + (if f x then 1 else 0)
  = count_if f l + (if f y then 1 else 0).
Proof.
  revert i. induction l as [|z l IH]; intros [|i] H; simpl in *;
    try discriminate.
  - injection H as ->. lia.
  - specialize (IH i H). lia.
Qed.

Lemma count_if_insert_same f l i x y :
  l !! i = Some x -> f y = f x ->
  count_if f (<[i := y]> l) = count_if f l.
Proof.
  intros H E. pose proof (count_if_insert f l i x y H) as C.
  rewrite E in C. lia.
Qed.

Lemma count_if_delete f l i x :
  l !! i = Some x ->
  count_if f (delete i l) + (if f x then 1 else 0) = count_if f l.
Proof.
  revert i. induction l as [|z l IH]; intros [|i] H; simpl in *;
    try discriminate.
  - injection H as ->. lia.
  - specialize (IH i H). lia.
Qed.

Lemma count_if_zero f l i x :
  count_if f l = 0 -> l !! i = Some x -> f x = false.
Proof.
  revert i. induction l as [|z l IH]; intros [|i] H E; simpl in *;
    try discriminate.
  - injection E as ->. destruct (f x); [lia | reflexivity].
  - apply (IH i); [destruct (f z); lia | exact E].
Qed.

Lemma count_if_pos f l i x :
  l !! i = Some x -> f x = true -> 0 < count_if f l.
Proof.
  intros E Hx. destruct (count_if f l) eqn:C; [|lia].
  rewrite (count_if_zero f l i x C E) in Hx. discriminate.
Qed.


Lemma alter_as_insert (g : A -> A) l i x :
  l !! i = Some x -> alter g i l = <[i := g x]> l.
Proof.
  revert i. induction l as [|z l IH]; intros [|i] H; simpl in *;
    try discriminate.
  - injection H as ->. reflexivity.
  - f_equal. apply IH, H.
Qed.

Lemma lookup_snoc_Some l x i y :
  (l ++ [x]) !! i = Some y ->
  l !! i = Some y \/ (i = length l /\ y = x).
Proof.
  intros H. apply lookup_app_Some in H as [H|[Hi H]]; [left; exact H|].
  right. destruct (i - length l) as [|k] eqn:E; simpl in H.
  - injection H as ->. split; [lia | reflexivity].
  - destruct k; discriminate.
Qed.

Lemma lookup_snoc_new l x : (l ++ [x]) !! length l = Some x.
Proof. rewrite lookup_app_r by lia. now rewrite Nat.sub_diag. Qed.

Lemma lookup_snoc_old l x i y : l !! i = Some y -> (l ++ [x]) !! i = Some y.
Proof. intros H. now apply lookup_app_l_Some. Qed.

End lists.

Lemma uc_insert {A} (l : list (Shared A)) i o j :
  i < length l ->
  from_option use_count 0 (<[i := o]> l !! j)
  = if decide (j = i) then use_count o else from_option use_count 0 (l !! j).
Proof.
  intros Hi. destruct (decide (j = i)) as [->|N].
  - now rewrite list_lookup_insert_eq.
  - now rewrite list_lookup_insert_ne by congruence.
Qed.

Lemma uc_snoc {A} (l : list (Shared A)) o j :
  from_option use_count 0 ((l ++ [o]) !! j)
  = if decide (j = length l) then use_count o
    else from_option use_count 0 (l !! j).
Proof.
  destruct (decide (j = length l)) as [->|N].
  - now rewrite lookup_snoc_new.
  - destruct (decide (j < length l)).
    + now rewrite lookup_app_l.
    + rewrite !(proj2 (lookup_ge_None _ _)); [reflexivity | lia |].
      rewrite length_app. simpl. lia.
Qed.

Lemma uc_pos_lookup {A} (l : list (Shared A)) i :
  from_option use_count 0 (l !! i) <> 0 ->
  exists o, l !! i = Some o /\ use_count o <> 0.
Proof. destruct (l !! i) as [o|]; simpl; [eauto | congruence]. Qed.

Lemma alive_true {A} (o : Shared A) : alive o = true <-> use_count o <> 0.
Proof. unfold alive. destruct (use_count o); simpl; split; congruence. Qed.


Lemma count_occ_snoc (t : list Event) e' e :
  count_occ Event_eq_dec (t ++ [e']) e
  = count_occ Event_eq_dec t e + (if decide (e' = e) then 1 else 0).
Proof.
  rewrite count_occ_app. simpl.
  destruct (decide (e' = e)), (Event_eq_dec e' e); congruence.
Qed.

Lemma precedes_app a b t es :
  precedes a b t -> (In b es -> In a t) -> precedes a b (t ++ es).
Proof.
  intros Hp Hes t1 t2 E.
  apply app_eq_app in E as [l [[E1 E2]|[E1 E2]]].
  - destruct l as [|x l]; simpl in E2.
    + rewrite app_nil_r in E1. subst t1. apply Hes. rewrite <- E2. now left.
    + injection E2 as -> E2. apply (Hp t1 l E1).
  - subst t1. apply in_or_app. left. apply Hes. rewrite E2.
    apply in_or_app. right. now left.
Qed.

Lemma precedes_absent a b t : ~ In b t -> precedes a b t.
Proof.
  intros H t1 t2 E. exfalso. apply H. rewrite E.
  apply in_or_app. right. now left.
Qed.

Lemma count_occ_zero_absent (t : list Event) e :
  count_occ Event_eq_dec t e = 0 -> ~ In e t.
Proof. apply count_occ_not_In. Qed.

Lemma count_occ_one_present (t : list Event) e :
  count_occ Event_eq_dec t e = 1 -> In e t.
Proof. intros H. apply (count_occ_In Event_eq_dec). lia. Qed.

(** * The invariant is preserved *)

Ltac inv_open H :=
  destruct H as [(Hcs & Hcc & Hcl) (Hks & Hkc & Hkl) (Hos & Hoc & Hol)
                   (Hts & Htc & Hte & Hti) (Hrs & Hrc)].

Ltac inv_close :=
  constructor;
  [ split; [|split] | split; [|split] | split; [|split]
  | split; [|split; [|split]] | split ].

Lemma pend_other r r' : r <> r' -> pend (Some r) r' = 0.
Proof. intros H. unfold pend. case_decide; [congruence | reflexivity]. Qed.

Lemma pend_same r : pend (Some r) r = 1.
Proof. unfold pend. case_decide; [reflexivity | congruence]. Qed.

Lemma pend_none r : pend None r = 0.
Proof. reflexivity. Qed.

Lemma release_lib_inv l w :
  Inv (Some (RLib l)) w -> Inv None (release_lib l w).
Proof.
  intros H. inv_open H.
  pose proof (Hcl l) as Hl. rewrite pend_same in Hl.
  destruct (uc_pos_lookup (libs w) l) as (o & Eo & No);
    [unfold uc_lib in Hl; lia|].
  unfold uc_lib in Hl. rewrite Eo in Hl. simpl in Hl.
  unfold release_lib. rewrite Eo.
  destruct (use_count o) as [|k] eqn:Ek; [congruence|].
  assert (Hlen : l < length (libs w)) by (eapply lookup_lt_Some; eauto).
  assert (Herr : lib_m_errorCode (object o) = 0%Z)
    by (apply (Hkl l o Eo); congruence).
  assert (Hold : forall j z, <[l := with_count k o]> (libs w) !! j = Some z ->
            (j = l /\ z = with_count k o) \/ (j <> l /\ libs w !! j = Some z)).
  { intros j z E. destruct (decide (j = l)) as [->|N].
    - rewrite list_lookup_insert_eq in E by assumption. left. split; congruence.
    - rewrite list_lookup_insert_ne in E by congruence. right. split; assumption. }
  assert (Hcounts : counts_owners None
            (set_libs (<[l := with_count k o]> (libs w)) w)).
  { split; [|split]; intros x.
    - specialize (Hcs x). rewrite pend_other in Hcs by discriminate. exact Hcs.
    - specialize (Hcc x). rewrite pend_other in Hcc by discriminate. exact Hcc.
    - unfold uc_lib, held_count, conn_deps in *. simpl. rewrite uc_insert by assumption.
      rewrite pend_none.
      case_decide as E; [subst x; simpl; lia|].
      specialize (Hcl x). rewrite pend_other in Hcl by congruence.
      rewrite Hcl. reflexivity. }
  assert (Hti' : forall j e, In (Ev_library_init j e) (trace w) ->
            exists o', <[l := with_count k o]> (libs w) !! j = Some o'
                       /\ lib_m_errorCode (object o') = e).
  { intros j e Hin. destruct (Hti j e Hin) as (o' & E' & He).
    destruct (decide (j = l)) as [->|N].
    - exists (with_count k o). rewrite list_lookup_insert_eq by assumption.
      split; [reflexivity|]. simpl. congruence.
    - exists o'. rewrite list_lookup_insert_ne by congruence. tauto. }
  assert (Hte' : forall j, In (Ev_library_end j) (trace w) ->
            exists o', <[l := with_count k o]> (libs w) !! j = Some o'
                       /\ use_count o' = 0 /\ lib_m_errorCode (object o') = 0%Z).
  { intros j Hin. destruct (Hte j Hin) as (o' & E' & Hc & He).
    assert (j <> l) by (intros ->; congruence).
    exists o'. rewrite list_lookup_insert_ne by congruence. tauto. }
  destruct k as [|k'].
  - (* the last owner: ~MySQLClientLibrary runs *)
    destruct (decide _) as [_|]; [|contradiction].
    assert (Hdeps : conn_deps w l = 0) by lia.
    inv_close; try apply Hcounts; try assumption; simpl.
    + intros j z E Hz. destruct (Hold j z E) as [[-> ->]|[N E']];
        [simpl in Hz; congruence | apply (Hkl j z E' Hz)].
    + intros s z E Hz. rewrite count_occ_snoc, (Hos s z E Hz).
      case_decide; [discriminate | lia].
    + intros c z E Hz. rewrite count_occ_snoc, (Hoc c z E Hz).
      case_decide; [discriminate | lia].
    + intros j z E Hz. rewrite count_occ_snoc.
      destruct (Hold j z E) as [[-> ->]|[N E']].
      * rewrite (Hol l o Eo Herr). unfold alive. rewrite Ek. simpl.
        case_decide; [reflexivity | congruence].
      * rewrite (Hol j z E' Hz). case_decide; [congruence | lia].
    + intros s h Hin. apply in_app_or in Hin as [Hin|[Hin|[]]];
        [eauto | discriminate].
    + intros c h Hin. apply in_app_or in Hin as [Hin|[Hin|[]]];
        [eauto | discriminate].
    + intros j Hin. apply in_app_or in Hin as [Hin|[Hin|[]]]; [eauto|].
      injection Hin as <-. exists (with_count 0 o).
      rewrite list_lookup_insert_eq by assumption. simpl. tauto.
    + intros j e Hin. apply in_app_or in Hin as [Hin|[Hin|[]]];
        [eauto | discriminate].
    + intros s z c E Hz Ec. apply precedes_app; [eauto|].
      intros [Hin|[]]. discriminate.
    + intros c z j E Hz Ej. apply precedes_app; [eauto|].
      intros [Hin|[]]. injection Hin as <-.
      apply count_occ_one_present. rewrite (Hoc c z E Hz).
      pose proof (count_if_zero _ _ c z Hdeps E) as Hf. simpl in Hf.
      rewrite Ej, bool_decide_eq_true_2, andb_true_r in Hf by reflexivity.
      rewrite Hf. reflexivity.
  - inv_close; try apply Hcounts; try assumption; simpl.
    + intros j z E Hz. destruct (Hold j z E) as [[-> ->]|[N E']];
        [apply (Hkl l o Eo); congruence | apply (Hkl j z E' Hz)].
    + intros j z E Hz. destruct (Hold j z E) as [[-> ->]|[N E']].
      * rewrite (Hol l o Eo Herr). unfold alive. rewrite Ek. reflexivity.
      * apply (Hol j z E' Hz).
Qed.

Lemma release_conn_inv c w :
  Inv (Some (RConn c)) w -> Inv None (release_conn c w).
Proof.
  intros H. inv_open H.
  pose proof (Hcc c) as Hc. rewrite pend_same in Hc.
  destruct (uc_pos_lookup (conns w) c) as (o & Eo & No);
    [unfold uc_conn in Hc; lia|].
  unfold uc_conn in Hc. rewrite Eo in Hc. simpl in Hc.
  unfold release_conn. rewrite Eo.
  destruct (use_count o) as [|k] eqn:Ek; [congruence|].
  assert (Hlen : c < length (conns w)) by (eapply lookup_lt_Some; eauto).
  assert (Hh : m_mysql (object o) <> 0%Z)
    by (apply (Hkc c o Eo); congruence).
  assert (Hold : forall j z, <[c := with_count k o]> (conns w) !! j = Some z ->
            (j = c /\ z = with_count k o) \/ (j <> c /\ conns w !! j = Some z)).
  { intros j z E. destruct (decide (j = c)) as [->|N].
    - rewrite list_lookup_insert_eq in E by assumption. left. split; congruence.
    - rewrite list_lookup_insert_ne in E by congruence. right. split; assumption. }
  assert (Htc' : forall j h, In (Ev_close j h) (trace w) ->
            exists o', <[c := with_count k o]> (conns w) !! j = Some o'
                       /\ use_count o' = 0).
  { intros j h Hin. destruct (Htc j h Hin) as (o' & E' & Hc').
    assert (j <> c) by (intros ->; congruence).
    exists o'. rewrite list_lookup_insert_ne by congruence. tauto. }
  assert (Hobj : forall j z, <[c := with_count k o]> (conns w) !! j = Some z ->
            exists z', conns w !! j = Some z' /\ object z' = object z).
  { intros j z E. destruct (Hold j z E) as [[-> ->]|[N E']]; eauto. }
  destruct k as [|k'].
  - (* the last owner: ~MySQLConnection runs, then m_library is released *)
    destruct (decide _) as [|_]; [contradiction|].
    assert (Hdeps : stmt_deps w c = 0) by lia.
    cut (Inv (RLib <$> m_library (object o))
           (emit [Ev_close c (m_mysql (object o))]
              (set_conns (<[c := with_count 0 o]> (conns w)) w))).
    { destruct (m_library (object o)) as [l|]; simpl;
        [apply release_lib_inv | trivial]. }
    inv_close; try assumption; simpl.
    + intros x. specialize (Hcs x). rewrite pend_other in Hcs by discriminate.
      replace (pend _ _) with 0
        by (destruct (m_library (object o)); reflexivity).
      exact Hcs.
    + intros x. unfold uc_conn, held_count, stmt_deps in *. simpl.
      rewrite uc_insert by assumption.
      replace (pend _ _) with 0
        by (destruct (m_library (object o)); reflexivity).
      case_decide as E; [subst x; simpl; lia|].
      specialize (Hcc x). rewrite pend_other in Hcc by congruence.
      rewrite Hcc. reflexivity.
    + intros x. specialize (Hcl x). rewrite pend_other in Hcl by discriminate.
      unfold uc_lib, held_count, conn_deps in *. simpl. rewrite Hcl.
      pose proof (count_if_insert
        (fun o0 => alive o0 && bool_decide (m_library (object o0) = Some x))
        (conns w) c o (with_count 0 o) Eo) as Hi.
      simpl in Hi. unfold alive at 2 in Hi. rewrite Ek in Hi. simpl in Hi.
      unfold pend. destruct (m_library (object o)) as [l|] eqn:El;
        rewrite ?El in Hi; simpl.
      * destruct (decide (l = x)) as [->|N].
        -- rewrite bool_decide_eq_true_2 in Hi by reflexivity.
           case_decide; [lia | congruence].
        -- rewrite bool_decide_eq_false_2 in Hi by congruence.
           case_decide; [congruence | lia].
      * rewrite bool_decide_eq_false_2 in Hi by congruence. lia.
    + intros j z E Hz. destruct (Hold j z E) as [[-> ->]|[N E']];
        [simpl in Hz; congruence | apply (Hkc j z E' Hz)].
    + intros s z E Hz. rewrite count_occ_snoc, (Hos s z E Hz).
      case_decide; [discriminate | lia].
    + intros j z E Hz. rewrite count_occ_snoc.
      destruct (Hold j z E) as [[-> ->]|[N E']].
      * change (object (with_count 0 o)) with (object o).
        rewrite (Hoc c o Eo Hh). unfold alive. rewrite Ek. simpl.
        case_decide; [reflexivity | congruence].
      * rewrite (Hoc j z E' Hz). case_decide; [congruence | lia].
    + intros l z E Hz. rewrite count_occ_snoc, (Hol l z E Hz).
      case_decide; [discriminate | lia].
    + intros s h Hin. apply in_app_or in Hin as [Hin|[Hin|[]]];
        [eauto | discriminate].
    + intros j h Hin. apply in_app_or in Hin as [Hin|[Hin|[]]]; [eauto|].
      injection Hin as <- <-. exists (with_count 0 o).
      rewrite list_lookup_insert_eq by assumption. simpl. tauto.
    + intros j Hin. apply in_app_or in Hin as [Hin|[Hin|[]]];
        [eauto | discriminate].
    + intros j e Hin. apply in_app_or in Hin as [Hin|[Hin|[]]];
        [eauto | discriminate].
    + intros s z co E Hz Ec. destruct (Hobj _ _ Ec) as (co' & Ec' & <-).
      apply precedes_app; [eauto|].
      intros [Hin|[]]. injection Hin as Hj Hhh.
      apply count_occ_one_present. rewrite (Hos s z E Hz).
      pose proof (count_if_zero _ _ s z Hdeps E) as Hf. simpl in Hf.
      rewrite bool_decide_eq_true_2, andb_true_r in Hf by congruence.
      rewrite Hf. reflexivity.
    + intros j z l E Hz El. destruct (Hobj _ _ E) as (z' & E' & Hzz).
      rewrite <- Hzz in *. apply precedes_app; [eauto|].
      intros [Hin|[]]. discriminate.
  - inv_close; try assumption; simpl.
    + intros x. unfold uc_conn, held_count, stmt_deps in *. simpl.
      rewrite uc_insert by assumption. rewrite pend_none.
      case_decide as E; [subst x; simpl; lia|].
      specialize (Hcc x). rewrite pend_other in Hcc by congruence.
      rewrite Hcc. reflexivity.
    + intros x. specialize (Hcl x). rewrite pend_other in Hcl by discriminate.
      unfold uc_lib, held_count, conn_deps in *. simpl. rewrite Hcl.
      rewrite (count_if_insert_same _ _ _ _ _ Eo); [reflexivity|].
      simpl. unfold alive. simpl. rewrite Ek. reflexivity.
    + intros j z E Hz. destruct (Hold j z E) as [[-> ->]|[N E']];
        [exact Hh | apply (Hkc j z E' Hz)].
    + intros j z E Hz. destruct (Hold j z E) as [[-> ->]|[N E']].
      * change (object (with_count (S k') o)) with (object o).
        rewrite (Hoc c o Eo Hh). unfold alive. rewrite Ek. reflexivity.
      * apply (Hoc j z E' Hz).
    + intros s z co E Hz Ec. destruct (Hobj _ _ Ec) as (co' & Ec' & <-).
      eauto.
    + intros j z l E Hz El. destruct (Hobj _ _ E) as (z' & E' & Hzz).
      rewrite <- Hzz in *. eauto.
Qed.

Lemma release_stmt_inv s w :
  Inv (Some (RStmt s)) w -> Inv None (release_stmt s w).
Proof.
  intros H. inv_open H.
  pose proof (Hcs s) as Hs. rewrite pend_same in Hs.
  destruct (uc_pos_lookup (stmts w) s) as (o & Eo & No);
    [unfold uc_stmt in Hs; lia|].
  unfold uc_stmt in Hs. rewrite Eo in Hs. simpl in Hs.
  unfold release_stmt. rewrite Eo.
  destruct (use_count o) as [|k] eqn:Ek; [congruence|].
  assert (Hlen : s < length (stmts w)) by (eapply lookup_lt_Some; eauto).
  assert (Hh : m_stmt (object o) <> 0%Z)
    by (apply (Hks s o Eo); congruence).
  assert (Hold : forall j z, <[s := with_count k o]> (stmts w) !! j = Some z ->
            (j = s /\ z = with_count k o) \/ (j <> s /\ stmts w !! j = Some z)).
  { intros j z E. destruct (decide (j = s)) as [->|N].
    - rewrite list_lookup_insert_eq in E by assumption. left. split; congruence.
    - rewrite list_lookup_insert_ne in E by congruence. right. split; assumption. }
  assert (Hts' : forall j h, In (Ev_stmt_close j h) (trace w) ->
            exists o', <[s := with_count k o]> (stmts w) !! j = Some o'
                       /\ use_count o' = 0).
  { intros j h Hin. destruct (Hts j h Hin) as (o' & E' & Hc').
    assert (j <> s) by (intros ->; congruence).
    exists o'. rewrite list_lookup_insert_ne by congruence. tauto. }
  assert (Hobj : forall j z, <[s := with_count k o]> (stmts w) !! j = Some z ->
            exists z', stmts w !! j = Some z' /\ object z' = object z).
  { intros j z E. destruct (Hold j z E) as [[-> ->]|[N E']]; eauto. }
  destruct k as [|k'].
  - (* the last owner: ~MySQLPreparedStatement runs, then m_conn is released *)
    destruct (decide _) as [|_]; [contradiction|].
    apply release_conn_inv.
    inv_close; try assumption; simpl.
    + intros x. unfold uc_stmt, held_count in *. simpl.
      rewrite uc_insert by assumption. rewrite pend_other by discriminate.
      case_decide as E; [subst x; simpl; lia|].
      specialize (Hcs x). rewrite pend_other in Hcs by congruence.
      rewrite Hcs. reflexivity.
    + intros x. specialize (Hcc x). rewrite pend_other in Hcc by discriminate.
      unfold uc_conn, held_count, stmt_deps in *. simpl. rewrite Hcc.
      pose proof (count_if_insert
        (fun o0 => alive o0 && bool_decide (m_conn (object o0) = x))
        (stmts w) s o (with_count 0 o) Eo) as Hi.
      simpl in Hi. unfold alive at 2 in Hi. rewrite Ek in Hi. simpl in Hi.
      unfold pend. destruct (decide (m_conn (object o) = x)) as [Heq|N].
      * rewrite bool_decide_eq_true_2 in Hi by exact Heq.
        case_decide; [lia | congruence].
      * rewrite bool_decide_eq_false_2 in Hi by congruence.
        case_decide; [congruence | lia].
    + intros j z E Hz. destruct (Hold j z E) as [[-> ->]|[N E']];
        [simpl in Hz; congruence | apply (Hks j z E' Hz)].
    + intros j z E Hz. rewrite count_occ_snoc.
      destruct (Hold j z E) as [[-> ->]|[N E']].
      * change (object (with_count 0 o)) with (object o).
        rewrite (Hos s o Eo Hh). unfold alive. rewrite Ek. simpl.
        case_decide; [reflexivity | congruence].
      * rewrite (Hos j z E' Hz). case_decide; [congruence | lia].
    + intros c z E Hz. rewrite count_occ_snoc, (Hoc c z E Hz).
      case_decide; [discriminate | lia].
    + intros l z E Hz. rewrite count_occ_snoc, (Hol l z E Hz).
      case_decide; [discriminate | lia].
    + intros j h Hin. apply in_app_or in Hin as [Hin|[Hin|[]]]; [eauto|].
      injection Hin as <- <-. exists (with_count 0 o).
      rewrite list_lookup_insert_eq by assumption. simpl. tauto.
    + intros c h Hin. apply in_app_or in Hin as [Hin|[Hin|[]]];
        [eauto | discriminate].
    + intros j Hin. apply in_app_or in Hin as [Hin|[Hin|[]]];
        [eauto | discriminate].
    + intros j e Hin. apply in_app_or in Hin as [Hin|[Hin|[]]];
        [eauto | discriminate].
    + intros j z co E Hz Ec. destruct (Hobj _ _ E) as (z' & E' & Hzz).
      rewrite <- Hzz in *. apply precedes_app; [eauto|].
      intros [Hin|[]]. discriminate.
    + intros j z l E Hz El. apply precedes_app; [eauto|].
      intros [Hin|[]]. discriminate.
  - inv_close; try assumption; simpl.
    + intros x. unfold uc_stmt, held_count in *. simpl.
      rewrite uc_insert by assumption. rewrite pend_none.
      case_decide as E; [subst x; simpl; lia|].
      specialize (Hcs x). rewrite pend_other in Hcs by congruence.
      rewrite Hcs. reflexivity.
    + intros x. specialize (Hcc x). rewrite pend_other in Hcc by discriminate.
      unfold uc_conn, held_count, stmt_deps in *. simpl. rewrite Hcc.
      rewrite (count_if_insert_same _ _ _ _ _ Eo); [reflexivity|].
      simpl. unfold alive. simpl. rewrite Ek. reflexivity.
    + intros j z E Hz. destruct (Hold j z E) as [[-> ->]|[N E']];
        [exact Hh | apply (Hks j z E' Hz)].
    + intros j z E Hz. destruct (Hold j z E) as [[-> ->]|[N E']].
      * change (object (with_count (S k') o)) with (object o).
        rewrite (Hos s o Eo Hh). unfold alive. rewrite Ek. reflexivity.
      * apply (Hos j z E' Hz).
    + intros j z co E Hz Ec. destruct (Hobj _ _ E) as (z' & E' & Hzz).
      rewrite <- Hzz in *. eauto.
Qed.

Lemma release_inv r w : Inv (Some r) w -> Inv None (release r w).
Proof.
  destruct r; simpl;
    [apply release_lib_inv | apply release_conn_inv | apply release_stmt_inv].
Qed.

Lemma acquire_lib_inv l w :
  Inv None w -> uc_lib w l <> 0 -> Inv (Some (RLib l)) (acquire_lib l w).
Proof.
  intros H Hl. inv_open H.
  destruct (uc_pos_lookup (libs w) l Hl) as (o & Eo & No).
  unfold acquire_lib. rewrite (alter_as_insert _ _ _ _ Eo).
  assert (Hlen : l < length (libs w)) by (eapply lookup_lt_Some; eauto).
  assert (Hold : forall j z, <[l := incr o]> (libs w) !! j = Some z ->
            (j = l /\ z = incr o) \/ (j <> l /\ libs w !! j = Some z)).
  { intros j z E. destruct (decide (j = l)) as [->|N].
    - rewrite list_lookup_insert_eq in E by assumption. left. split; congruence.
    - rewrite list_lookup_insert_ne in E by congruence. right. split; assumption. }
  assert (Ha : alive o = true) by (now apply alive_true).
  inv_close; try assumption; simpl.
  - intros x. unfold uc_lib, held_count, conn_deps in *. simpl.
    rewrite uc_insert by assumption. specialize (Hcl x). rewrite pend_none in Hcl.
    case_decide as E.
    + subst x. rewrite pend_same. rewrite Eo in Hcl. simpl in *. lia.
    + rewrite pend_other by congruence. exact Hcl.
  - intros j z E Hz. destruct (Hold j z E) as [[-> ->]|[N E']];
      [apply (Hkl l o Eo No) | apply (Hkl j z E' Hz)].
  - intros j z E Hz. destruct (Hold j z E) as [[-> ->]|[N E']].
    + change (object (incr o)) with (object o) in *.
      rewrite (Hol l o Eo Hz), Ha. reflexivity.
    + apply (Hol j z E' Hz).
  - intros j Hin. destruct (Hte j Hin) as (o' & E' & Hc & He).
    assert (j <> l) by (intros ->; congruence).
    exists o'. rewrite list_lookup_insert_ne by congruence. tauto.
  - intros j e Hin. destruct (Hti j e Hin) as (o' & E' & He).
    destruct (decide (j = l)) as [->|N].
    + exists (incr o). rewrite list_lookup_insert_eq by assumption.
      split; [reflexivity|]. simpl. congruence.
    + exists o'. rewrite list_lookup_insert_ne by congruence. tauto.
Qed.

Lemma acquire_conn_inv c w :
  Inv None w -> uc_conn w c <> 0 -> Inv (Some (RConn c)) (acquire_conn c w).
Proof.
  intros H Hc. inv_open H.
  destruct (uc_pos_lookup (conns w) c Hc) as (o & Eo & No).
  unfold acquire_conn. rewrite (alter_as_insert _ _ _ _ Eo).
  assert (Hlen : c < length (conns w)) by (eapply lookup_lt_Some; eauto).
  assert (Hold : forall j z, <[c := incr o]> (conns w) !! j = Some z ->
            (j = c /\ z = incr o) \/ (j <> c /\ conns w !! j = Some z)).
  { intros j z E. destruct (decide (j = c)) as [->|N].
    - rewrite list_lookup_insert_eq in E by assumption. left. split; congruence.
    - rewrite list_lookup_insert_ne in E by congruence. right. split; assumption. }
  assert (Hobj : forall j z, <[c := incr o]> (conns w) !! j = Some z ->
            exists z', conns w !! j = Some z' /\ object z' = object z).
  { intros j z E. destruct (Hold j z E) as [[-> ->]|[N E']]; eauto. }
  assert (Ha : alive o = true) by (now apply alive_true).
  inv_close; try assumption; simpl.
  - intros x. unfold uc_conn, held_count, stmt_deps in *. simpl.
    rewrite uc_insert by assumption. specialize (Hcc x). rewrite pend_none in Hcc.
    case_decide as E.
    + subst x. rewrite pend_same. rewrite Eo in Hcc. simpl in *. lia.
    + rewrite pend_other by congruence. exact Hcc.
  - intros x. specialize (Hcl x).
    unfold uc_lib, held_count, conn_deps in *. simpl. rewrite Hcl.
    rewrite (count_if_insert_same _ _ _ _ _ Eo); [reflexivity|].
    simpl. rewrite Ha. reflexivity.
  - intros j z E Hz. destruct (Hold j z E) as [[-> ->]|[N E']];
      [apply (Hkc c o Eo No) | apply (Hkc j z E' Hz)].
  - intros j z E Hz. destruct (Hold j z E) as [[-> ->]|[N E']].
    + change (object (incr o)) with (object o) in *.
      rewrite (Hoc c o Eo Hz), Ha. reflexivity.
    + apply (Hoc j z E' Hz).
  - intros j h Hin. destruct (Htc j h Hin) as (o' & E' & Hc').
    assert (j <> c) by (intros ->; congruence).
    exists o'. rewrite list_lookup_insert_ne by congruence. tauto.
  - intros s z co E Hz Ec. destruct (Hobj _ _ Ec) as (co' & Ec' & <-).
    eauto.
  - intros j z l E Hz El. destruct (Hobj _ _ E) as (z' & E' & Hzz).
    rewrite <- Hzz in *. eauto.
Qed.

Lemma acquire_stmt_inv s w :
  Inv None w -> uc_stmt w s <> 0 -> Inv (Some (RStmt s)) (acquire_stmt s w).
Proof.
  intros H Hs. inv_open H.
  destruct (uc_pos_lookup (stmts w) s Hs) as (o & Eo & No).
  unfold acquire_stmt. rewrite (alter_as_insert _ _ _ _ Eo).
  assert (Hlen : s < length (stmts w)) by (eapply lookup_lt_Some; eauto).
  assert (Hold : forall j z, <[s := incr o]> (stmts w) !! j = Some z ->
            (j = s /\ z = incr o) \/ (j <> s /\ stmts w !! j = Some z)).
  { intros j z E. destruct (decide (j = s)) as [->|N].
    - rewrite list_lookup_insert_eq in E by assumption. left. split; congruence.
    - rewrite list_lookup_insert_ne in E by congruence. right. split; assumption. }
  assert (Hobj : forall j z, <[s := incr o]> (stmts w) !! j = Some z ->
            exists z', stmts w !! j = Some z' /\ object z' = object z).
  { intros j z E. destruct (Hold j z E) as [[-> ->]|[N E']]; eauto. }
  assert (Ha : alive o = true) by (now apply alive_true).
  inv_close; try assumption; simpl.
  - intros x. unfold uc_stmt, held_count in *. simpl.
    rewrite uc_insert by assumption. specialize (Hcs x). rewrite pend_none in Hcs.
    case_decide as E.
    + subst x. rewrite pend_same. rewrite Eo in Hcs. simpl in *. lia.
    + rewrite pend_other by congruence. exact Hcs.
  - intros x. specialize (Hcc x).
    unfold uc_conn, held_count, stmt_deps in *. simpl. rewrite Hcc.
    rewrite (count_if_insert_same _ _ _ _ _ Eo); [reflexivity|].
    simpl. rewrite Ha. reflexivity.
  - intros j z E Hz. destruct (Hold j z E) as [[-> ->]|[N E']];
      [apply (Hks s o Eo No) | apply (Hks j z E' Hz)].
  - intros j z E Hz. destruct (Hold j z E) as [[-> ->]|[N E']].
    + change (object (incr o)) with (object o) in *.
      rewrite (Hos s o Eo Hz), Ha. reflexivity.
    + apply (Hos j z E' Hz).
  - intros j h Hin. destruct (Hts j h Hin) as (o' & E' & Hc').
    assert (j <> s) by (intros ->; congruence).
    exists o'. rewrite list_lookup_insert_ne by congruence. tauto.
  - intros j z co E Hz Ec. destruct (Hobj _ _ E) as (z' & E' & Hzz).
    rewrite <- Hzz in *. eauto.
Qed.

Lemma acquire_inv r w :
  Inv None w -> 0 < held_count w r -> Inv (Some r) (acquire r w).
Proof.
  intros H Hr. pose proof (inv_counts _ _ H) as (Hcs & Hcc & Hcl).
  destruct r as [l|c|s]; simpl.
  - apply acquire_lib_inv; [exact H|]. rewrite (Hcl l). lia.
  - apply acquire_conn_inv; [exact H|]. rewrite (Hcc c). lia.
  - apply acquire_stmt_inv; [exact H|]. rewrite (Hcs s). lia.
Qed.

Lemma held_lookup_count w i r : held w !! i = Some r -> 0 < held_count w r.
Proof.
  intros E. unfold held_count. eapply count_if_pos; [exact E|].
  now apply bool_decide_eq_true_2.
Qed.

Lemma keep_inv r w : Inv (Some r) w -> Inv None (set_held (held w ++ [r]) w).
Proof.
  intros H. inv_open H.
  inv_close; try assumption; simpl; intros x;
    [specialize (Hcs x) | specialize (Hcc x) | specialize (Hcl x)];
    unfold uc_stmt, uc_conn, uc_lib, held_count, stmt_deps, conn_deps, pend in *;
    simpl; rewrite count_if_app; simpl;
    repeat case_decide; simplify_eq;
    rewrite ?bool_decide_eq_true_2 by reflexivity;
    rewrite ?bool_decide_eq_false_2 by congruence; lia.
Qed.

Lemma detach_inv i r w :
  Inv None w -> held w !! i = Some r ->
  Inv (Some r) (set_held (delete i (held w)) w).
Proof.
  intros H E. inv_open H.
  inv_close; try assumption; simpl; intros x;
    [specialize (Hcs x);
     pose proof (count_if_delete (fun r' => bool_decide (r' = RStmt x)) _ _ _ E)
   | specialize (Hcc x);
     pose proof (count_if_delete (fun r' => bool_decide (r' = RConn x)) _ _ _ E)
   | specialize (Hcl x);
     pose proof (count_if_delete (fun r' => bool_decide (r' = RLib x)) _ _ _ E)];
    unfold uc_stmt, uc_conn, uc_lib, held_count, stmt_deps, conn_deps, pend in *;
    simpl in *;
    repeat case_decide; simplify_eq;
    rewrite ?bool_decide_eq_true_2 in * by reflexivity;
    rewrite ?bool_decide_eq_false_2 in * by congruence; lia.
Qed.

Lemma count_occ_neutral (t es : list Event) e :
  (forall e', In e' es -> neutral e' = true) -> neutral e = false ->
  count_occ Event_eq_dec (t ++ es) e = count_occ Event_eq_dec t e.
Proof.
  intros Hes He. rewrite count_occ_app.
  rewrite (proj1 (count_occ_not_In Event_eq_dec es e)); [lia|].
  intros Hin. rewrite (Hes e Hin) in He. discriminate.
Qed.

Lemma in_app_neutral (t es : list Event) e :
  (forall e', In e' es -> neutral e' = true) -> neutral e = false ->
  In e (t ++ es) -> In e t.
Proof.
  intros Hes He Hin. apply in_app_or in Hin as [Hin|Hin]; [exact Hin|].
  rewrite (Hes e Hin) in He. discriminate.
Qed.

Lemma emit_neutral_inv p es w :
  Inv p w -> (forall e, In e es -> neutral e = true) -> Inv p (emit es w).
Proof.
  intros H Hes. inv_open H.
  inv_close; try assumption; simpl.
  - intros s o E Hz. rewrite count_occ_neutral; eauto.
  - intros c o E Hz. rewrite count_occ_neutral; eauto.
  - intros l o E Hz. rewrite count_occ_neutral; eauto.
  - intros s h Hin. apply in_app_neutral in Hin; eauto.
  - intros c h Hin. apply in_app_neutral in Hin; eauto.
  - intros l Hin. apply in_app_neutral in Hin; eauto.
  - intros l e Hin. apply in_app_neutral in Hin; eauto.
  - intros s o c E Hz Ec. apply precedes_app; [eauto|].
    intros Hin. apply Hes in Hin. discriminate.
  - intros c o l E Hz El. apply precedes_app; [eauto|].
    intros Hin. apply Hes in Hin. discriminate.
Qed.

Lemma neutral_calls cs e : In e (Ev_call <$> cs) -> neutral e = true.
Proof.
  intros Hin. apply list_elem_of_In, list_elem_of_fmap in Hin as (c & -> & _).
  reflexivity.
Qed.

Lemma call_stmt_frame m n s :
  m_conn (fst (call_stmt m n s)) = m_conn s
  /\ m_stmt (fst (call_stmt m n s)) = m_stmt s.
Proof.
  destruct m; simpl;
    unfold prepare, prepare_cstr, setParameterLength, bindParameters,
      bindResults, execute, fetch, stop, forget; simpl;
    repeat match goal with
           | |- context [decide ?P] => destruct (decide P); simpl
           | |- context [match ?x with _ => _ end] => destruct x; simpl
           end; split; reflexivity.
Qed.

Lemma call_conn_frame m n c : fst (call_conn m n c) = c.
Proof. destruct m; reflexivity. Qed.

Lemma update_stmt_inv p s o o' w :
  Inv p w -> stmts w !! s = Some o ->
  m_conn o' = m_conn (object o) -> m_stmt o' = m_stmt (object o) ->
  Inv p (set_stmts (<[s := mkShared (use_count o) o']> (stmts w)) w).
Proof.
  intros H Eo Hc Hs. inv_open H.
  assert (Hlen : s < length (stmts w)) by (eapply lookup_lt_Some; eauto).
  assert (Hold : forall j z,
            <[s := mkShared (use_count o) o']> (stmts w) !! j = Some z ->
            exists z', stmts w !! j = Some z' /\ use_count z' = use_count z
                       /\ m_conn (object z') = m_conn (object z)
                       /\ m_stmt (object z') = m_stmt (object z)).
  { intros j z E. destruct (decide (j = s)) as [->|N].
    - rewrite list_lookup_insert_eq in E by assumption. injection E as <-.
      exists o. simpl. auto.
    - rewrite list_lookup_insert_ne in E by congruence. eauto. }
  inv_close; try assumption; simpl.
  - intros x. unfold uc_stmt, held_count in *. simpl.
    rewrite uc_insert by assumption. specialize (Hcs x).
    case_decide as E; [subst x; rewrite Eo in Hcs|]; exact Hcs.
  - intros x. specialize (Hcc x).
    unfold uc_conn, held_count, stmt_deps in *. simpl. rewrite Hcc.
    rewrite (count_if_insert_same _ _ _ _ _ Eo); [reflexivity|].
    simpl. rewrite Hc. reflexivity.
  - intros j z E Hz. destruct (Hold j z E) as (z' & E' & Hu & _ & Hm).
    rewrite <- Hm. apply (Hks j z' E'). congruence.
  - intros j z E Hz. destruct (Hold j z E) as (z' & E' & Hu & _ & Hm).
    rewrite <- Hm in *. rewrite (Hos j z' E' Hz). unfold alive.
    rewrite Hu. reflexivity.
  - intros j h Hin. destruct (Hts j h Hin) as (z & E & Hz).
    destruct (decide (j = s)) as [->|N].
    + exists (mkShared (use_count o) o').
      rewrite list_lookup_insert_eq by assumption. split; [reflexivity|].
      simpl. congruence.
    + exists z. rewrite list_lookup_insert_ne by congruence. tauto.
  - intros j z co E Hz Ec. destruct (Hold j z E) as (z' & E' & Hu & Hmc & Hm).
    rewrite <- Hm, <- Hmc in *. eauto.
Qed.

Lemma lock_Some w l : lock w = Some l -> uc_lib w l <> 0.
Proof.
  unfold lock, uc_lib. destruct (m_instance w) as [i|]; [|discriminate].
  destruct (libs w !! i) as [o|] eqn:E; [|discriminate].
  case_decide; [discriminate|]. intros [= <-]. rewrite E. assumption.
Qed.

Lemma lock_None w :
  constructed w -> lock w = None ->
  forall l o, libs w !! l = Some o -> use_count o = 0.
Proof.
  intros (_ & _ & Hkl) Hlock l o E.
  destruct (decide (use_count o = 0)) as [|N]; [assumption|].
  destruct (Hkl l o E N) as [_ Hi]. unfold lock in Hlock.
  rewrite Hi, E in Hlock. case_decide; [contradiction | discriminate].
Qed.

Lemma lock_alive w l :
  constructed w -> uc_lib w l <> 0 -> lock w = Some l.
Proof.
  intros (_ & _ & Hkl) Hl.
  destruct (uc_pos_lookup _ _ Hl) as (o & E & N).
  destruct (Hkl l o E N) as [_ Hi]. unfold lock. rewrite Hi, E.
  case_decide; [contradiction | reflexivity].
Qed.

Lemma new_lib_inv w cnt e inst :
  Inv None w ->
  (cnt = 1 /\ e = 0%Z /\ inst = Some (length (libs w))
   /\ (forall l o, libs w !! l = Some o -> use_count o = 0))
  \/ (cnt = 0 /\ e <> 0%Z /\ inst = m_instance w) ->
  Inv (if decide (cnt = 0) then None else Some (RLib (length (libs w))))
    (set_instance inst
       (set_libs (libs w ++ [mkShared cnt (mkLib e)])
          (emit [Ev_library_init (length (libs w)) e] w))).
Proof.
  intros H Hcase. inv_open H.
  assert (Hfresh : ~ In (Ev_library_end (length (libs w))) (trace w)).
  { intros Hin. destruct (Hte _ Hin) as (o & E & _).
    apply lookup_lt_Some in E. lia. }
  pose proof (Hcl (length (libs w))) as Hl. unfold uc_lib in Hl.
  rewrite (proj2 (lookup_ge_None _ _)) in Hl by lia. simpl in Hl.
  rewrite pend_none in Hl.
  set (p := if decide (cnt = 0) then None
            else Some (RLib (length (libs w)))).
  assert (Hp : forall r, r <> RLib (length (libs w)) -> pend p r = 0).
  { intros r Hr. unfold p. case_decide; [reflexivity | now apply pend_other]. }
  inv_close; try assumption; simpl.
  - intros x. rewrite Hp by discriminate. exact (Hcs x).
  - intros x. rewrite Hp by discriminate. exact (Hcc x).
  - intros x. unfold uc_lib, held_count, conn_deps in *. simpl.
    rewrite uc_snoc. simpl. specialize (Hcl x). rewrite pend_none in Hcl.
    destruct (decide (x = length (libs w))) as [->|N].
    + unfold p. destruct Hcase as [(-> & _)|(-> & _)]; simpl;
        rewrite ?pend_same, ?pend_none; lia.
    + rewrite Hcl, Hp by congruence. reflexivity.
  - intros j z E Hz. apply lookup_snoc_Some in E as [E|[-> ->]].
    + destruct Hcase as [(_ & _ & _ & Hdead)|(_ & _ & ->)];
        [rewrite (Hdead j z E) in Hz; congruence | apply (Hkl j z E Hz)].
    + destruct Hcase as [(-> & -> & -> & _)|(-> & _)]; simpl in *;
        [split; reflexivity | congruence].
  - intros s z E Hz. rewrite count_occ_snoc, (Hos s z E Hz).
    case_decide; [discriminate | lia].
  - intros c z E Hz. rewrite count_occ_snoc, (Hoc c z E Hz).
    case_decide; [discriminate | lia].
  - intros j z E Hz. rewrite count_occ_snoc.
    case_decide; [discriminate|]. rewrite Nat.add_0_r.
    apply lookup_snoc_Some in E as [E|[-> ->]]; [apply (Hol j z E Hz)|].
    rewrite (proj1 (count_occ_not_In _ _ _) Hfresh).
    destruct Hcase as [(-> & _)|(_ & Ne & _)]; [reflexivity|].
    simpl in Hz. contradiction.
  - intros s h Hin. apply in_app_or in Hin as [Hin|[Hin|[]]];
      [eauto | discriminate].
  - intros c h Hin. apply in_app_or in Hin as [Hin|[Hin|[]]];
      [eauto | discriminate].
  - intros j Hin. apply in_app_or in Hin as [Hin|[Hin|[]]]; [|discriminate].
    destruct (Hte j Hin) as (o & E & Ho). exists o.
    split; [now apply lookup_snoc_old | exact Ho].
  - intros j e' Hin. apply in_app_or in Hin as [Hin|[Hin|[]]].
    + destruct (Hti j e' Hin) as (o & E & Ho). exists o.
      split; [now apply lookup_snoc_old | exact Ho].
    + injection Hin as <- <-. eexists. split; [apply lookup_snoc_new|].
      reflexivity.
  - intros s z c E Hz Ec. apply precedes_app; [eauto|].
    intros [Hin|[]]. discriminate.
  - intros c z j E Hz Ej. apply precedes_app; [eauto|].
    intros [Hin|[]]. discriminate.
Qed.

Lemma createOrGet_inv argc argv groups n w :
  Inv None w ->
  match createOrGet argc argv groups n w with
  | (w', Ok l) => Inv (Some (RLib l)) w'
  | (w', Throw _) => Inv None w'
  end.
Proof.
  intros H. unfold createOrGet.
  destruct (lock w) as [l|] eqn:Hlock.
  - apply acquire_lib_inv; [exact H | now apply lock_Some].
  - destruct (decide (mysql_library_init n argc argv groups = 0%Z)) as [E|N].
    + rewrite E.
      apply (new_lib_inv w 1 0%Z (Some (length (libs w))) H).
      left. repeat split; try reflexivity.
      apply lock_None; [apply H | exact Hlock].
    + apply (new_lib_inv w 0 _ (m_instance w) H). right. auto.
Qed.

Lemma pend_lib_opt library r :
  pend (RLib <$> library) r
  = match r with
    | RLib l => if decide (library = Some l) then 1 else 0
    | _ => 0
    end.
Proof.
  unfold pend. destruct library as [l'|], r as [l| |]; simpl;
    repeat case_decide; congruence.
Qed.

Lemma new_conn_inv w library h cnt :
  Inv (RLib <$> library) w ->
  (cnt = 1 /\ h <> 0%Z) \/ (cnt = 0 /\ h = 0%Z) ->
  Inv (if decide (cnt = 0) then RLib <$> library
       else Some (RConn (length (conns w))))
    (set_conns (conns w ++ [mkShared cnt (mkConn library h)])
       (emit [Ev_init (length (conns w)) h] w)).
Proof.
  intros H Hcase. inv_open H.
  assert (Hfresh : forall h', ~ In (Ev_close (length (conns w)) h') (trace w)).
  { intros h' Hin. destruct (Htc _ _ Hin) as (o & E & _).
    apply lookup_lt_Some in E. lia. }
  pose proof (Hcc (length (conns w))) as Hc. unfold uc_conn in Hc.
  rewrite (proj2 (lookup_ge_None _ _)) in Hc by lia. simpl in Hc.
  rewrite pend_lib_opt in Hc.
  set (p := if decide (cnt = 0) then RLib <$> library
            else Some (RConn (length (conns w)))).
  inv_close; try assumption; simpl.
  - intros x. specialize (Hcs x). rewrite pend_lib_opt in Hcs.
    replace (pend p (RStmt x)) with 0; [exact Hcs|].
    unfold p. case_decide; [now rewrite pend_lib_opt | now rewrite pend_other].
  - intros x. unfold uc_conn, held_count, stmt_deps in *. simpl.
    rewrite uc_snoc. simpl. specialize (Hcc x). rewrite pend_lib_opt in Hcc.
    destruct (decide (x = length (conns w))) as [->|N].
    + unfold p. destruct Hcase as [(-> & _)|(-> & _)]; simpl;
        rewrite ?pend_same, ?pend_lib_opt; lia.
    + rewrite Hcc. replace (pend p (RConn x)) with 0; [reflexivity|].
      unfold p. case_decide; [now rewrite pend_lib_opt|].
      rewrite pend_other by congruence. reflexivity.
  - intros x. specialize (Hcl x). rewrite pend_lib_opt in Hcl.
    unfold uc_lib, held_count, conn_deps in *. simpl. rewrite Hcl.
    rewrite count_if_app. simpl. unfold p, alive. simpl.
    destruct Hcase as [(-> & _)|(-> & _)]; simpl.
    + rewrite pend_other by discriminate.
      destruct (decide (library = Some x)) as [E|N].
      * rewrite bool_decide_eq_true_2 by assumption. lia.
      * rewrite bool_decide_eq_false_2 by assumption. lia.
    + rewrite pend_lib_opt. lia.
  - intros j z E Hz. apply lookup_snoc_Some in E as [E|[-> ->]];
      [apply (Hkc j z E Hz)|].
    destruct Hcase as [(-> & Hh)|(-> & _)]; simpl in *; congruence.
  - intros s z E Hz. rewrite count_occ_snoc, (Hos s z E Hz).
    case_decide; [discriminate | lia].
  - intros j z E Hz. rewrite count_occ_snoc.
    case_decide; [discriminate|]. rewrite Nat.add_0_r.
    apply lookup_snoc_Some in E as [E|[-> ->]]; [apply (Hoc j z E Hz)|].
    rewrite (proj1 (count_occ_not_In _ _ _) (Hfresh _)).
    destruct Hcase as [(-> & _)|(_ & ->)]; [reflexivity|].
    simpl in Hz. congruence.
  - intros l z E Hz. rewrite count_occ_snoc, (Hol l z E Hz).
    case_decide; [discriminate | lia].
  - intros s h' Hin. apply in_app_or in Hin as [Hin|[Hin|[]]];
      [eauto | discriminate].
  - intros j h' Hin. apply in_app_or in Hin as [Hin|[Hin|[]]]; [|discriminate].
    destruct (Htc j h' Hin) as (o & E & Ho). exists o.
    split; [now apply lookup_snoc_old | exact Ho].
  - intros j Hin. apply in_app_or in Hin as [Hin|[Hin|[]]];
      [eauto | discriminate].
  - intros j e' Hin. apply in_app_or in Hin as [Hin|[Hin|[]]];
      [eauto | discriminate].
  - intros s z co E Hz Ec. apply precedes_app; [|intros [Hin|[]]; discriminate].
    apply lookup_snoc_Some in Ec as [Ec|[Ec ->]]; [eauto|].
    rewrite Ec. apply precedes_absent, Hfresh.
  - intros j z l E Hz El. apply precedes_app; [|intros [Hin|[]]; discriminate].
    apply lookup_snoc_Some in E as [E|[-> ->]]; [eauto|].
    simpl in El. subst library. apply precedes_absent.
    specialize (Hcl l). change (RLib <$> Some l) with (Some (RLib l)) in Hcl.
    rewrite pend_same in Hcl.
    destruct (uc_pos_lookup (libs w) l) as (o & Eo & No);
      [unfold uc_lib in Hcl; lia|].
    destruct (Hkl l o Eo No) as [He _].
    apply count_occ_zero_absent. rewrite (Hol l o Eo He).
    rewrite (proj2 (alive_true o) No). reflexivity.
Qed.

Lemma MySQLConnection_create_inv library n w :
  Inv None w -> (forall l, library = Some l -> uc_lib w l <> 0) ->
  match MySQLConnection_create library n w with
  | (w', Ok c) => Inv (Some (RConn c)) w'
  | (w', Throw _) => Inv None w'
  end.
Proof.
  intros H Hl. unfold MySQLConnection_create.
  assert (H1 : Inv (RLib <$> library) (acquire_lib_opt library w)).
  { destruct library as [l|]; simpl; [|exact H].
    apply acquire_lib_inv; [exact H | now apply Hl]. }
  assert (Ec : conns (acquire_lib_opt library w) = conns w)
    by (destruct library; reflexivity).
  destruct (decide (mysql_init n 0%Z = 0%Z)) as [E|N].
  - pose proof (new_conn_inv _ library (mysql_init n 0%Z) 0 H1
                  (or_intror (conj eq_refl E))) as H2.
    simpl in H2. rewrite Ec in H2. unfold emit at 1. simpl. rewrite Ec.
    destruct library as [l|]; simpl in *;
      [apply release_lib_inv |]; exact H2.
  - pose proof (new_conn_inv _ library (mysql_init n 0%Z) 1 H1
                  (or_introl (conj eq_refl N))) as H2.
    simpl in H2. rewrite Ec in H2. unfold emit at 1. simpl. rewrite Ec.
    exact H2.
Qed.

Lemma new_stmt_inv w conn hc h cnt :
  Inv (Some (RConn conn)) w ->
  (cnt = 1 /\ h <> 0%Z) \/ (cnt = 0 /\ h = 0%Z) ->
  Inv (if decide (cnt = 0) then Some (RConn conn)
       else Some (RStmt (length (stmts w))))
    (set_stmts (stmts w ++ [mkShared cnt (mkStmt conn h [] [] 0%Z)])
       (emit [Ev_stmt_init (length (stmts w)) hc h] w)).
Proof.
  intros H Hcase. inv_open H.
  assert (Hfresh : forall h', ~ In (Ev_stmt_close (length (stmts w)) h') (trace w)).
  { intros h' Hin. destruct (Hts _ _ Hin) as (o & E & _).
    apply lookup_lt_Some in E. lia. }
  pose proof (Hcs (length (stmts w))) as Hs. unfold uc_stmt in Hs.
  rewrite (proj2 (lookup_ge_None _ _)) in Hs by lia. simpl in Hs.
  rewrite pend_other in Hs by discriminate.
  set (p := if decide (cnt = 0) then Some (RConn conn)
            else Some (RStmt (length (stmts w)))).
  inv_close; try assumption; simpl.
  - intros x. unfold uc_stmt, held_count in *. simpl.
    rewrite uc_snoc. simpl. specialize (Hcs x).
    rewrite pend_other in Hcs by discriminate.
    destruct (decide (x = length (stmts w))) as [->|N].
    + unfold p. destruct Hcase as [(-> & _)|(-> & _)]; simpl;
        rewrite ?pend_same, ?pend_other by discriminate; lia.
    + rewrite Hcs. replace (pend p (RStmt x)) with 0; [reflexivity|].
      unfold p. case_decide; rewrite pend_other by congruence; reflexivity.
  - intros x. specialize (Hcc x).
    unfold uc_conn, held_count, stmt_deps in *. simpl. rewrite Hcc.
    rewrite count_if_app. simpl. unfold p, alive. simpl.
    destruct Hcase as [(-> & _)|(-> & _)]; simpl; [|lia].
    rewrite (pend_other (RStmt _)) by discriminate.
    destruct (decide (conn = x)) as [->|N].
    + rewrite bool_decide_eq_true_2, pend_same by reflexivity. lia.
    + rewrite bool_decide_eq_false_2, pend_other by congruence. lia.
  - intros x. specialize (Hcl x). rewrite pend_other in Hcl by discriminate.
    replace (pend p (RLib x)) with 0; [exact Hcl|].
    unfold p. case_decide; rewrite pend_other by congruence; reflexivity.
  - intros j z E Hz. apply lookup_snoc_Some in E as [E|[-> ->]];
      [apply (Hks j z E Hz)|].
    destruct Hcase as [(-> & Hh)|(-> & _)]; simpl in *; congruence.
  - intros j z E Hz. rewrite count_occ_snoc.
    case_decide; [discriminate|]. rewrite Nat.add_0_r.
    apply lookup_snoc_Some in E as [E|[-> ->]]; [apply (Hos j z E Hz)|].
    rewrite (proj1 (count_occ_not_In _ _ _) (Hfresh _)).
    destruct Hcase as [(-> & _)|(_ & ->)]; [reflexivity|].
    simpl in Hz. congruence.
  - intros c z E Hz. rewrite count_occ_snoc, (Hoc c z E Hz).
    case_decide; [discriminate | lia].
  - intros l z E Hz. rewrite count_occ_snoc, (Hol l z E Hz).
    case_decide; [discriminate | lia].
  - intros j h' Hin. apply in_app_or in Hin as [Hin|[Hin|[]]]; [|discriminate].
    destruct (Hts j h' Hin) as (o & E & Ho). exists o.
    split; [now apply lookup_snoc_old | exact Ho].
  - intros c h' Hin. apply in_app_or in Hin as [Hin|[Hin|[]]];
      [eauto | discriminate].
  - intros j Hin. apply in_app_or in Hin as [Hin|[Hin|[]]];
      [eauto | discriminate].
  - intros j e' Hin. apply in_app_or in Hin as [Hin|[Hin|[]]];
      [eauto | discriminate].
  - intros j z co E Hz Ec. apply precedes_app; [|intros [Hin|[]]; discriminate].
    apply lookup_snoc_Some in E as [E|[-> ->]]; [eauto|].
    simpl in *. apply precedes_absent.
    specialize (Hcc conn). rewrite pend_same in Hcc.
    assert (No : use_count co <> 0)
      by (unfold uc_conn in Hcc; rewrite Ec in Hcc; simpl in Hcc; lia).
    apply count_occ_zero_absent. rewrite (Hoc conn co Ec (Hkc conn co Ec No)).
    rewrite (proj2 (alive_true co) No). reflexivity.
  - intros j z l E Hz El. apply precedes_app; [eauto|].
    intros [Hin|[]]; discriminate.
Qed.

Lemma MySQLPreparedStatement_create_inv conn n w :
  Inv None w -> uc_conn w conn <> 0 ->
  match MySQLPreparedStatement_create conn n w with
  | (w', Ok s) => Inv (Some (RStmt s)) w'
  | (w', Throw _) => Inv None w'
  end.
Proof.
  intros H Hc. unfold MySQLPreparedStatement_create.
  pose proof (acquire_conn_inv conn w H Hc) as H1.
  set (hc := conn_handle (acquire_conn conn w) conn).
  destruct (decide (mysql_stmt_init n hc = 0%Z)) as [E|N].
  - apply release_conn_inv.
    apply (new_stmt_inv _ conn hc _ 0 H1 (or_intror (conj eq_refl E))).
  - apply (new_stmt_inv _ conn hc _ 1 H1 (or_introl (conj eq_refl N))).
Qed.

Lemma keep_factory_inv mk (r : World * Result nat) :
  match r with
  | (w', Ok i) => Inv (Some (mk i)) w'
  | (w', Throw _) => Inv None w'
  end ->
  Inv None (keep mk r).
Proof.
  destruct r as [w' [i|e]]; simpl; [apply keep_inv | trivial].
Qed.

Lemma step_inv n op w : Inv None w -> Inv None (step n op w).
Proof.
  intros H. pose proof (inv_counts _ _ H) as (Hcs & Hcc & Hcl).
  destruct op as [argc argv groups|[i|]|i|i|i|i m|i m]; simpl.
  - apply keep_factory_inv, createOrGet_inv, H.
  - destruct (held w !! i) as [[l|c|s]|] eqn:E; try exact H.
    apply keep_factory_inv, MySQLConnection_create_inv; [exact H|].
    intros l' [= <-]. rewrite (Hcl l).
    pose proof (held_lookup_count _ _ _ E). lia.
  - apply keep_factory_inv, MySQLConnection_create_inv; [exact H|].
    discriminate.
  - destruct (held w !! i) as [[l|c|s]|] eqn:E; try exact H.
    apply keep_factory_inv, MySQLPreparedStatement_create_inv; [exact H|].
    rewrite (Hcc c). pose proof (held_lookup_count _ _ _ E). lia.
  - destruct (held w !! i) as [r|] eqn:E; [|exact H].
    replace (held w) with (held (acquire r w)) by (now destruct r).
    apply (keep_inv r (acquire r w)), acquire_inv; [exact H|].
    eapply held_lookup_count, E.
  - destruct (held w !! i) as [r|] eqn:E; [|exact H].
    apply release_inv, detach_inv; assumption.
  - destruct (held w !! i) as [[l|c|s]|] eqn:E; try exact H.
    destruct (conns w !! c) as [o|] eqn:Eo; [|exact H].
    pose proof (call_conn_frame m n (object o)) as Hf.
    destruct (call_conn m n (object o)) as [o' cs]. simpl in Hf. subst o'.
    apply emit_neutral_inv; [|apply neutral_calls].
    replace (mkShared (use_count o) (object o)) with o by (now destruct o).
    rewrite list_insert_id by assumption. destruct w; exact H.
  - destruct (held w !! i) as [[l|c|s]|] eqn:E; try exact H.
    destruct (stmts w !! s) as [o|] eqn:Eo; [|exact H].
    pose proof (call_stmt_frame m n (object o)) as [Hf1 Hf2].
    destruct (call_stmt m n (object o)) as [o' cs]. simpl in Hf1, Hf2.
    apply emit_neutral_inv; [|apply neutral_calls].
    apply update_stmt_inv; assumption.
Qed.

Lemma initial_inv : Inv None initial.
Proof.
  inv_close; simpl; try (intros; discriminate); try (intros; contradiction);
    try reflexivity.
Qed.

Lemma run_inv p w : Inv None w -> Inv None (run p w).
Proof.
  revert w. induction p as [|[n op] p IH]; intros w H; simpl; [exact H|].
  apply IH, step_inv, H.
Qed.

Lemma reachable_inv p : Inv None (run p initial).
Proof. apply run_inv, initial_inv. Qed.

(** * Lifetimes *)





(** C5: in every state a client program can reach, at most one
    [MySQLClientLibrary] is alive, and [createOrGet] called while one is
    alive returns that instance: it adds an owner to it, constructs no
    object and makes no native call. *)
Theorem C5_createOrGet_reuses_live_instance (p : list (Native * Op))
    (argc argv groups : Z) (n : Native) :
  let w := run p initial in
  let r := createOrGet argc argv groups n w in
  (forall l l', uc_lib w l <> 0 -> uc_lib w l' <> 0 -> l = l')
  /\ (forall l, uc_lib w l <> 0 ->
        snd r = Ok l
        /\ uc_lib (fst r) l = S (uc_lib w l)
        /\ length (libs (fst r)) = length (libs w)
        /\ trace (fst r) = trace w).
Proof.
  cbv zeta. pose proof (reachable_inv p) as H.
  pose proof (inv_constructed _ _ H) as Hk.
  split.
  - intros l l' Hl Hl'.
    pose proof (lock_alive _ _ Hk Hl) as E.
    pose proof (lock_alive _ _ Hk Hl') as E'. congruence.
  - intros l Hl. unfold createOrGet. rewrite (lock_alive _ _ Hk Hl). simpl.
    destruct (uc_pos_lookup _ _ Hl) as (o & Eo & No).
    unfold uc_lib. simpl. rewrite (alter_as_insert _ _ _ _ Eo).
    rewrite length_insert, list_lookup_insert_eq, Eo
      by (eapply lookup_lt_Some; eauto).
    repeat split; reflexivity.
Qed.

Lemma C5_createOrGet_reuses_live_instance_witness :
  snd (createOrGet 0 0 0 (native_failing 1 "unused")
         (run [(native_ok 7, Op_createOrGet 0 0 0)] initial)) = Ok 0.
Proof.
  apply (C5_createOrGet_reuses_live_instance
           [(native_ok 7, Op_createOrGet 0 0 0)] 0 0 0
           (native_failing 1 "unused")).
  simpl. discriminate.
Defined.

(** C6: in every state a client program can reach, when [createOrGet]
    finds no living instance and [mysql_library_init] returns non-zero, it
    throws, the only native call is that initialisation, no library is alive
    afterwards and the client holds what it held; and no trace of any
    program contains a [mysql_library_end] for an object whose
    initialisation returned non-zero. *)
Theorem C6_failed_initialization (p : list (Native * Op))
    (argc argv groups : Z) (n : Native) :
  let w := run p initial in
  let r := createOrGet argc argv groups n w in
  (lock w = None -> mysql_library_init n argc argv groups <> 0%Z ->
     snd r = Throw (runtime_error "failed to initialize MySQL client library")
     /\ trace (fst r)
        = trace w ++ [Ev_library_init (length (libs w))
                        (mysql_library_init n argc argv groups)]
     /\ (forall l, uc_lib (fst r) l = 0)
     /\ lock (fst r) = None
     /\ held (fst r) = held w)
  /\ (forall l e, In (Ev_library_init l e) (trace w) -> e <> 0%Z ->
        ~ In (Ev_library_end l) (trace w)).
Proof.
  intros w r. subst r.
  assert (H : Inv None w) by apply reachable_inv. clearbody w.
  pose proof (inv_constructed _ _ H) as Hk.
  split.
  - intros Hlock Hne. unfold createOrGet. rewrite Hlock.
    destruct (decide _) as [|_]; [contradiction|]. simpl.
    assert (Hdead : forall l, uc_lib (set_libs (libs w ++
              [mkShared 0 (mkLib (mysql_library_init n argc argv groups))])
              (emit [Ev_library_init (length (libs w))
                       (mysql_library_init n argc argv groups)] w)) l = 0).
    { intros l. unfold uc_lib. simpl. rewrite uc_snoc. simpl.
      case_decide; [reflexivity|].
      destruct (libs w !! l) as [o|] eqn:E; [|reflexivity]. simpl.
      apply (lock_None _ Hk Hlock l o E). }
    repeat split; try reflexivity; [exact Hdead|].
    unfold lock. simpl. destruct (m_instance _) as [i|]; [|reflexivity].
    specialize (Hdead i). unfold uc_lib in Hdead. simpl in Hdead.
    destruct (_ !! i) as [o|]; [|reflexivity]. simpl in Hdead.
    case_decide; [reflexivity | contradiction].
  - intros l e Hi He He'.
    destruct (inv_sound _ _ H) as (_ & _ & Hte & Hti).
    destruct (Hti l e Hi) as (o & Eo & Ho).
    destruct (Hte l He') as (o' & Eo' & _ & Ho'). congruence.
Qed.

Lemma C6_failed_initialization_witness :
  snd (createOrGet 0 0 0 (native_failing 1 "") (run [] initial))
  = Throw (runtime_error "failed to initialize MySQL client library").
Proof.
  apply (C6_failed_initialization [] 0 0 0 (native_failing 1 ""));
    [reflexivity | simpl; discriminate].
Defined.

(** * Further properties of the member functions *)

(** X1: [prepare], [execute] and, once a descriptor is registered,
    [bindParameters] and [bindResults] store in [m_errorCode] what the
    native call returned and throw exactly when it is non-zero, so the
    call returns normally exactly when [getErrorCode] is [0] afterwards;
    they forward one call, with the statement's handle (the registered
    descriptors, in order, for the bind calls), and ask for
    [mysql_stmt_error] only after a failure; nothing but [m_errorCode]
    changes. *)
Theorem X1_statement_operations_store_status (n : Native)
    (s : MySQLPreparedStatement) (sql : string) (len : Z) :
  let len' := to_ulong (if decide (len = npos) then Z.of_nat (strlen sql)
                        else len) in
  (let o := prepare_cstr sql len n s in
   getErrorCode (state_after o) = mysql_stmt_prepare n (m_stmt s) sql len'
   /\ (throws (result o) <-> getErrorCode (state_after o) <> 0%Z)
   /\ calls o = forwarded (Call_mysql_stmt_prepare (m_stmt s) sql len')
                  (getErrorCode (state_after o)) (m_stmt s)
   /\ state_after o = set_errorCode (getErrorCode (state_after o)) s)
  /\ (let o := execute n s in
   getErrorCode (state_after o) = mysql_stmt_execute n (m_stmt s)
   /\ (throws (result o) <-> getErrorCode (state_after o) <> 0%Z)
   /\ calls o = forwarded (Call_mysql_stmt_execute (m_stmt s))
                  (getErrorCode (state_after o)) (m_stmt s)
   /\ state_after o = set_errorCode (getErrorCode (state_after o)) s)
  /\ (m_parameters s <> [] ->
   let o := bindParameters n s in
   getErrorCode (state_after o)
   = mysql_stmt_bind_param n (m_stmt s) (m_parameters s)
   /\ (throws (result o) <-> getErrorCode (state_after o) <> 0%Z)
   /\ calls o = forwarded (Call_mysql_stmt_bind_param (m_stmt s) (m_parameters s))
                  (getErrorCode (state_after o)) (m_stmt s)
   /\ state_after o = set_errorCode (getErrorCode (state_after o)) s)
  /\ (m_results s <> [] ->
   let o := bindResults n s in
   getErrorCode (state_after o)
   = mysql_stmt_bind_result n (m_stmt s) (m_results s)
   /\ (throws (result o) <-> getErrorCode (state_after o) <> 0%Z)
   /\ calls o = forwarded (Call_mysql_stmt_bind_result (m_stmt s) (m_results s))
                  (getErrorCode (state_after o)) (m_stmt s)
   /\ state_after o = set_errorCode (getErrorCode (state_after o)) s).
Proof.
  cbv zeta. unfold prepare_cstr, execute, bindParameters, bindResults,
    forwarded, getErrorCode.
  split; [|split; [|split]].
  - set (r := mysql_stmt_prepare _ _ _ _).
    destruct (decide (r = 0%Z)) as [E|N]; simpl; repeat split; try tauto;
      destruct (decide (r = 0%Z)); simpl; congruence.
  - set (r := mysql_stmt_execute _ _).
    destruct (decide (r = 0%Z)) as [E|N]; simpl; repeat split; try tauto;
      destruct (decide (r = 0%Z)); simpl; congruence.
  - intros Hne. destruct (m_parameters s) as [|b bs] eqn:Eb; [contradiction|].
    set (r := mysql_stmt_bind_param _ _ _).
    destruct (decide (r = 0%Z)) as [E|N]; simpl; repeat split; try tauto;
      destruct (decide (r = 0%Z)); simpl; congruence.
  - intros Hne. destruct (m_results s) as [|b bs] eqn:Eb; [contradiction|].
    set (r := mysql_stmt_bind_result _ _ _).
    destruct (decide (r = 0%Z)) as [E|N]; simpl; repeat split; try tauto;
      destruct (decide (r = 0%Z)); simpl; congruence.
Qed.

Lemma X1_statement_operations_store_status_witness :
  getErrorCode (state_after
    (bindParameters (native_failing 1 "x")
       (mkStmt 0 9 [descriptor MYSQL_TYPE_LONG 16 4] [] 0))) = 1%Z.
Proof.
  apply (X1_statement_operations_store_status (native_failing 1 "x")
           (mkStmt 0 9 [descriptor MYSQL_TYPE_LONG 16 4] [] 0) "" 0).
  discriminate.
Defined.

(** X2: [stop] makes the one call of [mysql_stmt_free_result] with the
    statement's handle, returns normally exactly when it returns [0] and
    throws otherwise; the statement, its stored error code included, is
    left as it was, and [mysql_stmt_error] is not asked. *)
Theorem X2_stop_forwards (n : Native) (s : MySQLPreparedStatement) :
  calls (stop n s) = [Call_mysql_stmt_free_result (m_stmt s)]
  /\ (result (stop n s) = Ok tt <-> mysql_stmt_free_result n (m_stmt s) = 0%Z)
  /\ (throws (result (stop n s)) <-> mysql_stmt_free_result n (m_stmt s) <> 0%Z)
  /\ state_after (stop n s) = s.
Proof.
  unfold stop. simpl.
  destruct (decide (mysql_stmt_free_result n (m_stmt s) = 0%Z)); simpl;
    repeat split; try tauto; try congruence; try discriminate.
Qed.

Lemma strlen_le sql : strlen sql <= String.length sql.
Proof.
  induction sql as [|a sql IH]; simpl; [lia|].
  destruct (decide (a = Ascii.zero)); lia.
Qed.

Lemma strlen_nul_free sql :
  strlen sql = String.length sql <-> nul_free sql = true.
Proof.
  induction sql as [|a sql IH]; simpl; [tauto|].
  destruct (decide (a = Ascii.zero)).
  - split; [lia | discriminate].
  - rewrite <- IH. split; lia.
Qed.

(** X3: [prepare(const std::string&)] forwards the text with its whole
    length, embedded NUL characters included, while
    [prepare(const char* )] with the default length forwards the number of
    characters before the first NUL, which is never more; the two make
    the same call, with the same outcome, exactly when the text has no NUL
    character. *)
Theorem X3_prepare_length (n : Native) (s : MySQLPreparedStatement)
    (sql : string) :
  (Z.of_nat (String.length sql) < npos)%Z ->
  head (calls (prepare sql n s))
  = Some (Call_mysql_stmt_prepare (m_stmt s) sql (Z.of_nat (String.length sql)))
  /\ head (calls (prepare_cstr sql npos n s))
     = Some (Call_mysql_stmt_prepare (m_stmt s) sql (Z.of_nat (strlen sql)))
  /\ strlen sql <= String.length sql
  /\ (nul_free sql = true -> prepare sql n s = prepare_cstr sql npos n s)
  /\ (head (calls (prepare sql n s)) = head (calls (prepare_cstr sql npos n s))
      -> nul_free sql = true).
Proof.
  intros Hlen. pose proof (strlen_le sql) as Hle.
  assert (Hnpos : npos = (2 ^ ulong_bits - 1)%Z) by reflexivity.
  assert (H1 : to_ulong (Z.of_nat (String.length sql))
               = Z.of_nat (String.length sql))
    by (apply to_ulong_size_t; unfold is_size_t; lia).
  assert (H2 : to_ulong (Z.of_nat (strlen sql)) = Z.of_nat (strlen sql))
    by (apply to_ulong_size_t; unfold is_size_t; lia).
  assert (C1 : head (calls (prepare sql n s))
     = Some (Call_mysql_stmt_prepare (m_stmt s) sql
               (Z.of_nat (String.length sql)))).
  { unfold prepare, prepare_cstr.
    destruct (decide (Z.of_nat (String.length sql) = npos)); [lia|].
    rewrite H1. destruct (decide _); reflexivity. }
  assert (C2 : head (calls (prepare_cstr sql npos n s))
     = Some (Call_mysql_stmt_prepare (m_stmt s) sql (Z.of_nat (strlen sql)))).
  { unfold prepare_cstr.
    destruct (decide (npos = npos)); [|congruence].
    rewrite H2. destruct (decide _); reflexivity. }
  repeat split; try assumption.
  - intros Hnf. apply strlen_nul_free in Hnf.
    unfold prepare, prepare_cstr.
    destruct (decide (Z.of_nat (String.length sql) = npos)); [lia|].
    destruct (decide (npos = npos)); [|congruence].
    rewrite Hnf. reflexivity.
  - rewrite C1, C2. intros [= E]. apply strlen_nul_free. lia.
Qed.

Lemma X3_prepare_length_witness :
  head (calls (prepare "ab" (native_ok 7) (mkStmt 0 9 [] [] 0)))
  = Some (Call_mysql_stmt_prepare 9 "ab" 2).
Proof.
  apply (X3_prepare_length (native_ok 7) (mkStmt 0 9 [] [] 0) "ab").
  unfold npos, ulong_bits. simpl. lia.
Defined.

Lemma register_all_handle rs s :
  m_stmt (fold_left register rs s) = m_stmt s
  /\ m_errorCode (fold_left register rs s) = m_errorCode s
  /\ m_conn (fold_left register rs s) = m_conn s.
Proof.
  revert s. induction rs as [|r rs IH]; intros s; simpl; [auto|].
  destruct (IH (register s r)) as (-> & -> & ->). destruct r; auto.
Qed.

(** X4: what [bindParameters] hands to [mysql_stmt_bind_param] is the
    descriptors of all the [addParameter] calls made so far, in call order,
    whatever [addResult] calls were made in between, and symmetrically for
    [bindResults]; registration itself makes no native call and leaves the
    handle and the stored error code alone.  Lengths are [std::size_t]
    values and the statement starts with no descriptor. *)
Theorem X4_bind_forwards_registrations (n : Native)
    (s : MySQLPreparedStatement) (rs : list Registration) :
  m_parameters s = [] -> m_results s = [] ->
  Forall (fun r => is_size_t (reg_length r)) rs ->
  let s' := fold_left register rs s in
  (parameters_of rs <> [] ->
     head (calls (bindParameters n s'))
     = Some (Call_mysql_stmt_bind_param (m_stmt s) (parameters_of rs)))
  /\ (results_of rs <> [] ->
     head (calls (bindResults n s'))
     = Some (Call_mysql_stmt_bind_result (m_stmt s) (results_of rs)))
  /\ (parameters_of rs = [] ->
     bindParameters n s'
     = mkOutcome s' [] (Throw (logic_error "there are no parameters")))
  /\ (results_of rs = [] ->
     bindResults n s'
     = mkOutcome s' [] (Throw (logic_error "there are no results")))
  /\ getErrorCode s' = getErrorCode s.
Proof.
  intros Hp Hr Hrs. cbv zeta.
  pose proof (register_all_parameters rs s) as Ep.
  pose proof (register_all_results rs s) as Er.
  rewrite (to_ulong_all _ Hrs), Hp in Ep.
  rewrite (to_ulong_all _ Hrs), Hr in Er. simpl in Ep, Er.
  destruct (register_all_handle rs s) as (Eh & Ee & _).
  unfold bindParameters, bindResults, getErrorCode.
  rewrite Ep, Er, Eh.
  repeat split.
  - intros Hne. destruct (parameters_of rs); [contradiction|].
    destruct (decide _); reflexivity.
  - intros Hne. destruct (results_of rs); [contradiction|].
    destruct (decide _); reflexivity.
  - intros ->. reflexivity.
  - intros ->. reflexivity.
  - exact Ee.
Qed.

Lemma X4_bind_forwards_registrations_witness :
  head (calls (bindParameters (native_ok 7)
     (fold_left register
        [Reg_parameter MYSQL_TYPE_LONG 16 4; Reg_result MYSQL_TYPE_STRING 32 10;
         Reg_parameter MYSQL_TYPE_BLOB 48 100] (mkStmt 0 9 [] [] 0))))
  = Some (Call_mysql_stmt_bind_param 9
            [descriptor MYSQL_TYPE_LONG 16 4; descriptor MYSQL_TYPE_BLOB 48 100]).
Proof.
  refine (proj1 (X4_bind_forwards_registrations (native_ok 7)
     (mkStmt 0 9 [] [] 0)
     [Reg_parameter MYSQL_TYPE_LONG 16 4; Reg_result MYSQL_TYPE_STRING 32 10;
      Reg_parameter MYSQL_TYPE_BLOB 48 100] eq_refl eq_refl _) _).
  - repeat constructor; unfold is_size_t, ulong_bits; simpl; lia.
  - discriminate.
Defined.

(** X5: [setParameterLength] on the parameter registered last succeeds and
    gives the statement that registering it with the new length would have
    given: the length given to [addParameter] is only an initial value. *)
Theorem X5_setParameterLength_after_addParameter (t : enum_field_types)
    (buf len len' : Z) (s : MySQLPreparedStatement) :
  setParameterLength (length (m_parameters s)) len' (addParameter t buf len s)
  = mkOutcome (addParameter t buf len' s) [] (Ok tt).
Proof.
  unfold setParameterLength. rewrite !addParameter_spec. simpl.
  rewrite lookup_snoc_new.
  rewrite insert_app_r_alt, Nat.sub_diag by lia. reflexivity.
Qed.

(** X6: for one index the length set last wins, whatever was set before;
    lengths set at different indices do not interfere, in either order; and
    a rejected call changes nothing, so it can be repeated or followed by a
    valid one as if it had not been made. *)
Theorem X6_setParameterLength_composes (i j : nat) (l1 l2 : Z)
    (s : MySQLPreparedStatement) :
  setParameterLength i l2 (state_after (setParameterLength i l1 s))
  = setParameterLength i l2 s
  /\ (i <> j ->
      state_after (setParameterLength j l2
                     (state_after (setParameterLength i l1 s)))
      = state_after (setParameterLength i l1
                       (state_after (setParameterLength j l2 s)))).
Proof.
  unfold setParameterLength. split.
  - destruct (m_parameters s !! i) as [p|] eqn:E; simpl; [|now rewrite E].
    rewrite list_lookup_insert_eq by (eapply lookup_lt_Some; eauto).
    rewrite list_insert_insert_eq. destruct p; reflexivity.
  - intros Hij.
    destruct (m_parameters s !! i) as [p|] eqn:Ei;
      destruct (m_parameters s !! j) as [q|] eqn:Ej; simpl;
      rewrite ?list_lookup_insert_ne by congruence;
      rewrite ?Ei, ?Ej; simpl; try reflexivity.
    rewrite list_insert_insert_ne by congruence. reflexivity.
Qed.

(** X7: every typed helper appends one descriptor whose buffer pointer is
    the address of its argument and whose buffer length is [sizeof] of the
    argument's type (for the pointer overloads: the pointer and the byte
    count given), and changes nothing else; the result helpers tag it with
    the native tag of the type. *)
Theorem X7_typed_helpers_record_buffer (t : CppType) (value size : Z)
    (s : MySQLPreparedStatement) :
  is_size_t size ->
  (exists tag,
     addParameter_typed t value size s
     = set_parameters
         (m_parameters s ++ [descriptor tag value (sizeof_typed t size)]) s)
  /\ addResult_typed t value size s
     = set_results
         (m_results s
          ++ [descriptor (native_buffer_type t) value (sizeof_typed t size)]) s.
Proof.
  intros Hs. split.
  - destruct t; simpl;
      unfold addParameter_char, addParameter_short, addParameter_int,
        addParameter_long_long, addParameter_float, addParameter_double,
        addParameter_blob, addParameter_string;
      rewrite addParameter_spec; eexists;
      rewrite ?(to_ulong_size_t _ Hs); reflexivity.
  - destruct t; simpl;
      unfold addResult_char, addResult_short, addResult_int,
        addResult_long_long, addResult_float, addResult_double,
        addResult_blob, addResult_string;
      rewrite addResult_spec;
      rewrite ?(to_ulong_size_t _ Hs); reflexivity.
Qed.

Lemma X7_typed_helpers_record_buffer_witness :
  addResult_typed T_char_ptr 32 10 (mkStmt 0 9 [] [] 0)
  = mkStmt 0 9 [] [descriptor MYSQL_TYPE_STRING 32 10] 0.
Proof.
  refine (proj2 (X7_typed_helpers_record_buffer T_char_ptr 32 10
                   (mkStmt 0 9 [] [] 0) _)).
  unfold is_size_t, ulong_bits. lia.
Defined.

(** * Further properties of the lifetimes *)

(** X8: a constructor that fails is undone.  When [mysql_init] returns
    null, [MySQLConnection::create] throws, the only native call is that
    [mysql_init], and the library passed in has the owners it had: the copy
    taken into [m_library] is released again without ending the library.
    When [mysql_stmt_init] returns null, [MySQLPreparedStatement::create]
    throws likewise and leaves the connection and the library as they
    were.  The reference passed in is one of a living object (or, for a
    connection, empty). *)
Theorem X8_failed_construction_is_undone (library : option nat) (conn : nat)
    (n : Native) (w : World) :
  ((forall l, library = Some l -> uc_lib w l <> 0) ->
   mysql_init n 0%Z = 0%Z ->
     let r := MySQLConnection_create library n w in
     snd r = Throw (runtime_error "failed to initialize connection object")
     /\ libs (fst r) = libs w /\ stmts (fst r) = stmts w
     /\ (forall c, uc_conn (fst r) c = uc_conn w c)
     /\ held (fst r) = held w
     /\ trace (fst r) = trace w ++ [Ev_init (length (conns w)) 0])
  /\ (uc_conn w conn <> 0 ->
     mysql_stmt_init n (conn_handle w conn) = 0%Z ->
     let r := MySQLPreparedStatement_create conn n w in
     snd r = Throw (runtime_error
                      "failed to initialize MySQL prepared statement object")
     /\ libs (fst r) = libs w /\ conns (fst r) = conns w
     /\ (forall s, uc_stmt (fst r) s = uc_stmt w s)
     /\ held (fst r) = held w
     /\ trace (fst r)
        = trace w ++ [Ev_stmt_init (length (stmts w)) (conn_handle w conn) 0]).
Proof.
  split.
  - intros Hl E. cbv zeta. unfold MySQLConnection_create. rewrite E. simpl.
    destruct library as [l|]; simpl.
    + destruct (uc_pos_lookup _ _ (Hl l eq_refl)) as (o & Eo & No).
      unfold release_lib, acquire_lib. simpl.
      rewrite (alter_as_insert _ _ _ _ Eo).
      rewrite list_lookup_insert_eq by (eapply lookup_lt_Some; eauto). simpl.
      destruct (use_count o) as [|k] eqn:Ek; [congruence|]. simpl.
      rewrite list_insert_insert_eq.
      replace (with_count (S k) (incr o)) with o
        by (destruct o; simpl in *; subst; reflexivity).
      rewrite list_insert_id by assumption.
      repeat split; try reflexivity.
      intros c. unfold uc_conn. simpl. rewrite uc_snoc. simpl.
      case_decide; [subst c|reflexivity].
      now rewrite (proj2 (lookup_ge_None _ _)) by lia.
    + repeat split; try reflexivity.
      intros c. unfold uc_conn. simpl. rewrite uc_snoc. simpl.
      case_decide; [subst c|reflexivity].
      now rewrite (proj2 (lookup_ge_None _ _)) by lia.
  - intros Hc E. cbv zeta. unfold MySQLPreparedStatement_create.
    destruct (uc_pos_lookup _ _ Hc) as (o & Eo & No).
    assert (Eh : conn_handle (acquire_conn conn w) conn = conn_handle w conn).
    { unfold conn_handle, acquire_conn. simpl.
      rewrite (alter_as_insert _ _ _ _ Eo).
      rewrite list_lookup_insert_eq by (eapply lookup_lt_Some; eauto).
      rewrite Eo. reflexivity. }
    rewrite Eh, E. simpl.
    unfold release_conn, acquire_conn. simpl.
    rewrite (alter_as_insert _ _ _ _ Eo).
    rewrite list_lookup_insert_eq by (eapply lookup_lt_Some; eauto). simpl.
    destruct (use_count o) as [|k] eqn:Ek; [congruence|]. simpl.
    rewrite list_insert_insert_eq.
    replace (with_count (S k) (incr o)) with o
      by (destruct o; simpl in *; subst; reflexivity).
    rewrite list_insert_id by assumption.
    repeat split; try reflexivity.
    intros s. unfold uc_stmt. simpl. rewrite uc_snoc. simpl.
    case_decide; [subst s|reflexivity].
    now rewrite (proj2 (lookup_ge_None _ _)) by lia.
Qed.

Lemma X8_failed_construction_is_undone_witness :
  libs (fst (MySQLConnection_create (Some 0) (native_failing 1 "")
               (run [(native_ok 7, Op_createOrGet 0 0 0)] initial)))
  = [mkShared 1 (mkLib 0)]
  /\ conns (fst (MySQLPreparedStatement_create 0 (native_failing 1 "")
                   (run [(native_ok 7, Op_createOrGet 0 0 0);
                         (native_ok 7, Op_connection_create (Some 0))]
                      initial)))
     = [mkShared 1 (mkConn (Some 0) 7)].
Proof.
  split.
  - refine (proj1 (proj2 (proj1 (X8_failed_construction_is_undone (Some 0) 0
       (native_failing 1 "")
       (run [(native_ok 7, Op_createOrGet 0 0 0)] initial)) _ eq_refl))).
    intros l [= <-]. simpl. discriminate.
  - refine (proj1 (proj2 (proj2 (proj2 (X8_failed_construction_is_undone None 0
       (native_failing 1 "")
       (run [(native_ok 7, Op_createOrGet 0 0 0);
             (native_ok 7, Op_connection_create (Some 0))] initial)) _
       eq_refl)))).
    simpl. discriminate.
Defined.

Lemma conn_handle_acquire conn w :
  conn_handle (acquire_conn conn w) conn = conn_handle w conn.
Proof.
  unfold conn_handle, acquire_conn. simpl.
  destruct (conns w !! conn) as [o|] eqn:Eo.
  - rewrite (alter_as_insert _ _ _ _ Eo).
    rewrite list_lookup_insert_eq by (eapply lookup_lt_Some; eauto).
    reflexivity.
  - rewrite list_lookup_alter_eq, Eo. reflexivity.
Qed.

(** X9: a statement that [MySQLPreparedStatement::create] returns was
    initialised on the handle of the connection passed in, owns that
    connection (one owner more), has the handle [mysql_stmt_init]
    returned, error code [0] and nothing registered: calling
    [bindParameters] or [bindResults] on it right away throws the logic
    error without a native call. *)
Theorem X9_new_statement_has_no_binding (conn : nat) (n n' : Native)
    (w : World) :
  uc_conn w conn <> 0 ->
  mysql_stmt_init n (conn_handle w conn) <> 0%Z ->
  let r := MySQLPreparedStatement_create conn n w in
  let s := length (stmts w) in
  snd r = Ok s
  /\ trace (fst r)
     = trace w ++ [Ev_stmt_init s (conn_handle w conn)
                     (mysql_stmt_init n (conn_handle w conn))]
  /\ uc_conn (fst r) conn = S (uc_conn w conn)
  /\ exists o, stmts (fst r) !! s = Some (mkShared 1 o)
       /\ m_conn o = conn
       /\ m_stmt o = mysql_stmt_init n (conn_handle w conn)
       /\ getErrorCode o = 0%Z
       /\ bindParameters n' o
          = mkOutcome o [] (Throw (logic_error "there are no parameters"))
       /\ bindResults n' o
          = mkOutcome o [] (Throw (logic_error "there are no results")).
Proof.
  intros Hc Hh. cbv zeta. unfold MySQLPreparedStatement_create.
  rewrite conn_handle_acquire.
  destruct (decide _) as [|_]; [contradiction|]. simpl.
  destruct (uc_pos_lookup _ _ Hc) as (o & Eo & No).
  repeat split.
  - unfold uc_conn. simpl. rewrite (alter_as_insert _ _ _ _ Eo).
    rewrite list_lookup_insert_eq, Eo by (eapply lookup_lt_Some; eauto).
    reflexivity.
  - eexists. split; [apply lookup_snoc_new|]. repeat split.
Qed.

Lemma X9_new_statement_has_no_binding_witness :
  snd (MySQLPreparedStatement_create 0 (native_ok 9)
         (run [(native_ok 7, Op_createOrGet 0 0 0);
               (native_ok 7, Op_connection_create (Some 0))] initial))
  = Ok 0.
Proof.
  refine (proj1 (X9_new_statement_has_no_binding 0 (native_ok 9) (native_ok 9)
     (run [(native_ok 7, Op_createOrGet 0 0 0);
           (native_ok 7, Op_connection_create (Some 0))] initial) _ _)).
  - simpl. discriminate.
  - simpl. discriminate.
Defined.

(** X10: when no library is alive and [mysql_library_init] returns [0],
    [createOrGet] initialises the library once and returns a new instance
    with one owner, which [m_instance] observes from then on: a second
    [createOrGet], whatever its arguments and whatever the native library
    would answer, returns the same instance with two owners and makes no
    native call. *)
Theorem X10_createOrGet_creates_then_reuses (argc argv groups : Z)
    (argc' argv' groups' : Z) (n n' : Native) (w : World) :
  lock w = None ->
  mysql_library_init n argc argv groups = 0%Z ->
  let l := length (libs w) in
  let r1 := createOrGet argc argv groups n w in
  let r2 := createOrGet argc' argv' groups' n' (fst r1) in
  snd r1 = Ok l /\ uc_lib (fst r1) l = 1 /\ lock (fst r1) = Some l
  /\ trace (fst r1) = trace w ++ [Ev_library_init l 0]
  /\ snd r2 = Ok l /\ uc_lib (fst r2) l = 2
  /\ trace (fst r2) = trace (fst r1)
  /\ length (libs (fst r2)) = S (length (libs w)).
Proof.
  intros Hlock E. cbv zeta.
  assert (H1 : createOrGet argc argv groups n w
    = (set_instance (Some (length (libs w)))
         (set_libs (libs w ++ [mkShared 1 (mkLib 0)])
            (emit [Ev_library_init (length (libs w)) 0] w)),
       Ok (length (libs w)))).
  { unfold createOrGet. rewrite Hlock, E. reflexivity. }
  rewrite H1. simpl.
  assert (H2 : lock (set_instance (Some (length (libs w)))
         (set_libs (libs w ++ [mkShared 1 (mkLib 0)])
            (emit [Ev_library_init (length (libs w)) 0] w)))
    = Some (length (libs w))).
  { unfold lock. simpl. rewrite lookup_snoc_new. reflexivity. }
  unfold createOrGet at 1 2 3 4. rewrite H2. simpl.
  unfold uc_lib. simpl.
  rewrite (alter_as_insert _ _ _ _ (lookup_snoc_new _ _)).
  rewrite lookup_snoc_new, list_lookup_insert_eq, length_insert, length_app
    by (rewrite length_app; simpl; lia).
  simpl. repeat split; try reflexivity. lia.
Qed.

Lemma X10_createOrGet_creates_then_reuses_witness :
  snd (createOrGet 1 2 3 (native_failing 1 "")
         (fst (createOrGet 0 0 0 (native_ok 7) initial))) = Ok 0.
Proof.
  refine (proj1 (proj2 (proj2 (proj2 (proj2
    (X10_createOrGet_creates_then_reuses 0 0 0 1 2 3 (native_ok 7)
       (native_failing 1 "") initial eq_refl eq_refl)))))).
Defined.



(** X12: what dropping a reference to a statement does to the native
    library, in every state a client program can reach.  If other owners
    of the statement remain, nothing.  If it was the last one,
    [mysql_stmt_close] on the statement's handle; then, if the statement
    was the last owner of its connection, [mysql_close] on the
    connection's handle; then, if that connection owned a library and was
    its last owner, [mysql_library_end]; in this order and nothing else. *)
Theorem X12_dropping_a_statement_reference (p : list (Native * Op))
    (n : Native) (i s : nat) (so : Shared MySQLPreparedStatement)
    (co : Shared MySQLConnection) :
  let w := run p initial in
  held w !! i = Some (RStmt s) ->
  stmts w !! s = Some so ->
  conns w !! m_conn (object so) = Some co ->
  held (step n (Op_reset i) w) = delete i (held w)
  /\ trace (step n (Op_reset i) w)
     = trace w ++
       (if decide (use_count so = 1) then
          Ev_stmt_close s (m_stmt (object so)) ::
          (if decide (use_count co = 1) then
             Ev_close (m_conn (object so)) (m_mysql (object co)) ::
             match m_library (object co) with
             | Some l =>
                 if decide (uc_lib w l = 1) then [Ev_library_end l] else []
             | None => []
             end
           else [])
        else []).
Proof.
  intros w. assert (H : Inv None w) by apply reachable_inv. clearbody w.
  intros Eh Es Ec. inv_open H.
  assert (Ns : use_count so <> 0).
  { pose proof (held_lookup_count _ _ _ Eh) as Hh. specialize (Hcs s).
    unfold uc_stmt in Hcs. rewrite Es in Hcs. simpl in Hcs. lia. }
  assert (Nc : use_count co <> 0).
  { assert (Hd : 0 < stmt_deps w (m_conn (object so))).
    { unfold stmt_deps. eapply count_if_pos; [exact Es|]. simpl.
      rewrite (proj2 (alive_true so) Ns), bool_decide_eq_true_2; reflexivity. }
    specialize (Hcc (m_conn (object so))). unfold uc_conn in Hcc.
    rewrite Ec in Hcc. simpl in Hcc. lia. }
  pose proof (Hks s so Es Ns) as Hhs. pose proof (Hkc _ co Ec Nc) as Hhc.
  pose proof (proj2 (alive_true co) Nc) as Hac.
  simpl. rewrite Eh. simpl. unfold release_stmt. simpl. rewrite Es.
  destruct (use_count so) as [|[|ks]] eqn:Eks; [congruence| |].
  2: { simpl. split; [reflexivity | now rewrite app_nil_r]. }
  simpl. destruct (decide (m_stmt (object so) = 0%Z)); [contradiction|].
  unfold release_conn. simpl. rewrite Ec.
  destruct (use_count co) as [|[|kc]] eqn:Ekc; [congruence| |].
  2: { simpl. split; reflexivity. }
  simpl. destruct (decide (m_mysql (object co) = 0%Z)); [contradiction|].
  destruct (m_library (object co)) as [l|] eqn:El; simpl.
  2: { split; [reflexivity | now rewrite <- app_assoc]. }
  assert (Hl : uc_lib w l <> 0).
  { assert (Hd : 0 < conn_deps w l).
    { unfold conn_deps. eapply count_if_pos; [exact Ec|]. simpl.
      rewrite Hac, bool_decide_eq_true_2; [reflexivity | exact El]. }
    specialize (Hcl l). lia. }
  destruct (uc_pos_lookup _ _ Hl) as (lo & Elo & Nlo).
  destruct (Hkl l lo Elo Nlo) as [He _].
  unfold release_lib, uc_lib. simpl. rewrite Elo. simpl.
  destruct (use_count lo) as [|[|kl]] eqn:Ekl; [congruence| |]; simpl.
  - destruct (decide _); [|contradiction]. simpl.
    split; [reflexivity | now rewrite <- !app_assoc].
  - split; [reflexivity | now rewrite <- !app_assoc].
Qed.

Lemma X12_dropping_a_statement_reference_witness :
  trace (step (native_ok 7) (Op_reset 0)
           (run [(native_ok 7, Op_createOrGet 0 0 0);
                 (native_ok 7, Op_connection_create (Some 0));
                 (native_ok 7, Op_statement_create 1);
                 (native_ok 7, Op_reset 0); (native_ok 7, Op_reset 0)] initial))
  = [Ev_library_init 0 0; Ev_init 0 7; Ev_stmt_init 0 7 7]
    ++ [Ev_stmt_close 0 7; Ev_close 0 7; Ev_library_end 0].
Proof.
  refine (proj2 (X12_dropping_a_statement_reference
     [(native_ok 7, Op_createOrGet 0 0 0);
      (native_ok 7, Op_connection_create (Some 0));
      (native_ok 7, Op_statement_create 1);
      (native_ok 7, Op_reset 0); (native_ok 7, Op_reset 0)]
     (native_ok 7) 0 0 (mkShared 1 (mkStmt 0 7 [] [] 0))
     (mkShared 1 (mkConn (Some 0) 7)) eq_refl eq_refl eq_refl)).
Defined.

Lemma emit_nil w : emit [] w = w.
Proof. destruct w. unfold emit. simpl. now rewrite app_nil_r. Qed.

(** X13: member functions never touch lifetimes.  A call of [connect],
    [setAutoCommit] or [getServerVersion] on a held connection changes
    nothing but the list of native calls, to which it adds forwarded calls
    only; a call of any member function of a held statement adds forwarded
    calls only, leaves the library, the connections and the client's
    references as they were, and keeps every statement's strong count,
    handle and connection. *)
Theorem X13_member_calls_keep_lifetimes (n : Native) (i : nat)
    (mc : ConnMethod) (ms : StmtMethod) (w : World) :
  (exists cs, step n (Op_conn i mc) w = emit (Ev_call <$> cs) w)
  /\ (let w' := step n (Op_stmt i ms) w in
      held w' = held w /\ libs w' = libs w /\ conns w' = conns w
      /\ m_instance w' = m_instance w
      /\ (exists cs, trace w' = trace w ++ (Ev_call <$> cs))
      /\ length (stmts w') = length (stmts w)
      /\ (forall s o', stmts w' !! s = Some o' ->
            exists o, stmts w !! s = Some o
              /\ use_count o' = use_count o
              /\ m_stmt (object o') = m_stmt (object o)
              /\ m_conn (object o') = m_conn (object o))).
Proof.
  split.
  - simpl. destruct (held w !! i) as [[l|c|s]|];
      try (exists []; now rewrite emit_nil).
    destruct (conns w !! c) as [o|] eqn:Eo;
      [|exists []; now rewrite emit_nil].
    pose proof (call_conn_frame mc n (object o)) as Hf.
    destruct (call_conn mc n (object o)) as [o' cs]. simpl in Hf. subst o'.
    exists cs. f_equal.
    replace (mkShared (use_count o) (object o)) with o by (now destruct o).
    rewrite list_insert_id by assumption. now destruct w.
  - cbv zeta. simpl.
    assert (Hid : held w = held w /\ libs w = libs w /\ conns w = conns w
      /\ m_instance w = m_instance w
      /\ (exists cs, trace w = trace w ++ (Ev_call <$> cs))
      /\ length (stmts w) = length (stmts w)
      /\ (forall s o', stmts w !! s = Some o' ->
            exists o, stmts w !! s = Some o
              /\ use_count o' = use_count o
              /\ m_stmt (object o') = m_stmt (object o)
              /\ m_conn (object o') = m_conn (object o))).
    { repeat split; eauto. exists []. now rewrite app_nil_r. }
    destruct (held w !! i) as [[l|c|s]|]; try exact Hid.
    destruct (stmts w !! s) as [o|] eqn:Eo; [|exact Hid].
    pose proof (call_stmt_frame ms n (object o)) as [Hf1 Hf2].
    destruct (call_stmt ms n (object o)) as [o' cs]. simpl in Hf1, Hf2. simpl.
    repeat split; eauto using length_insert.
    intros j z E. destruct (decide (j = s)) as [->|N].
    + rewrite list_lookup_insert_eq in E by (eapply lookup_lt_Some; eauto).
      injection E as <-. exists o. simpl. auto.
    + rewrite list_lookup_insert_ne in E by congruence. eauto.
Qed.

(** ** Every release follows its acquisition *)

Lemma app_split_cases {A} (t es t1 : list A) x t2 :
  t ++ es = t1 ++ x :: t2 ->
  (exists t2', t = t1 ++ x :: t2')
  \/ (exists l, t1 = t ++ l /\ es = l ++ x :: t2).
Proof.
  intros E. apply app_eq_app in E as [l [[E1 E2]|[E1 E2]]].
  - destruct l as [|y l]; simpl in E2.
    + right. exists []. rewrite app_nil_r in E1. subst t es.
      split; [now rewrite app_nil_r | reflexivity].
    + injection E2 as <- E2. left. eauto.
  - right. eauto.
Qed.

Lemma raa_app_other t es :
  release_after_acquire t ->
  (forall e, In e es -> is_release e = false) ->
  release_after_acquire (t ++ es).
Proof.
  intros (Hs & Hc & Hl) Hes.
  assert (Hno : forall x l t2, es = l ++ x :: t2 -> is_release x = true -> False).
  { intros x l t2 -> Hx. rewrite Hes in Hx; [discriminate|].
    apply in_or_app. right. now left. }
  split; [|split].
  - intros s h t1 t2 E. apply app_split_cases in E as [[t2' E]|(l & _ & E)];
      [eauto | destruct (Hno _ _ _ E eq_refl)].
  - intros c h t1 t2 E. apply app_split_cases in E as [[t2' E]|(l & _ & E)];
      [eauto | destruct (Hno _ _ _ E eq_refl)].
  - intros l0 t1 t2 E. apply app_split_cases in E as [[t2' E]|(l & _ & E)];
      [eauto | destruct (Hno _ _ _ E eq_refl)].
Qed.

Lemma snoc_inv {A} (l : list A) x t2 e :
  [e] = l ++ x :: t2 -> l = [] /\ x = e /\ t2 = [].
Proof.
  destruct l as [|y l]; simpl; intros E.
  - injection E as -> <-. auto.
  - injection E as _ E. destruct l; discriminate.
Qed.

Lemma raa_snoc_stmt t s h :
  release_after_acquire t -> h <> 0%Z ->
  (exists hc, In (Ev_stmt_init s hc h) t) ->
  release_after_acquire (t ++ [Ev_stmt_close s h]).
Proof.
  intros (Hs & Hc & Hl) Hh Hin. split; [|split].
  - intros s' h' t1 t2 E. apply app_split_cases in E as [[t2' E]|(l & E1 & E)];
      [eauto|].
    apply snoc_inv in E as (-> & [= <- <-] & _). rewrite app_nil_r in E1.
    subst t1. auto.
  - intros c h' t1 t2 E. apply app_split_cases in E as [[t2' E]|(l & E1 & E)];
      [eauto|]. apply snoc_inv in E as (_ & E & _). discriminate.
  - intros l0 t1 t2 E. apply app_split_cases in E as [[t2' E]|(l & E1 & E)];
      [eauto|]. apply snoc_inv in E as (_ & E & _). discriminate.
Qed.

Lemma raa_snoc_conn t c h :
  release_after_acquire t -> h <> 0%Z -> In (Ev_init c h) t ->
  release_after_acquire (t ++ [Ev_close c h]).
Proof.
  intros (Hs & Hc & Hl) Hh Hin. split; [|split].
  - intros s' h' t1 t2 E. apply app_split_cases in E as [[t2' E]|(l & E1 & E)];
      [eauto|]. apply snoc_inv in E as (_ & E & _). discriminate.
  - intros c' h' t1 t2 E. apply app_split_cases in E as [[t2' E]|(l & E1 & E)];
      [eauto|].
    apply snoc_inv in E as (-> & [= <- <-] & _). rewrite app_nil_r in E1.
    subst t1. auto.
  - intros l0 t1 t2 E. apply app_split_cases in E as [[t2' E]|(l & E1 & E)];
      [eauto|]. apply snoc_inv in E as (_ & E & _). discriminate.
Qed.

Lemma raa_snoc_lib t l :
  release_after_acquire t -> In (Ev_library_init l 0) t ->
  release_after_acquire (t ++ [Ev_library_end l]).
Proof.
  intros (Hs & Hc & Hl) Hin. split; [|split].
  - intros s' h' t1 t2 E. apply app_split_cases in E as [[t2' E]|(l' & E1 & E)];
      [eauto|]. apply snoc_inv in E as (_ & E & _). discriminate.
  - intros c' h' t1 t2 E. apply app_split_cases in E as [[t2' E]|(l' & E1 & E)];
      [eauto|]. apply snoc_inv in E as (_ & E & _). discriminate.
  - intros l0 t1 t2 E. apply app_split_cases in E as [[t2' E]|(l' & E1 & E)];
      [eauto|].
    apply snoc_inv in E as (-> & [= <-] & _). rewrite app_nil_r in E1.
    subst t1. auto.
Qed.

(** [acquired] only looks at the handles of the objects and grows with the
    trace. *)
Lemma acquired_mono w w' :
  acquired w ->
  (forall e, In e (trace w) -> In e (trace w')) ->
  (forall s o', stmts w' !! s = Some o' -> m_stmt (object o') <> 0%Z ->
     (exists o, stmts w !! s = Some o
                /\ m_stmt (object o) = m_stmt (object o'))
     \/ exists hc, In (Ev_stmt_init s hc (m_stmt (object o'))) (trace w')) ->
  (forall c o', conns w' !! c = Some o' -> m_mysql (object o') <> 0%Z ->
     (exists o, conns w !! c = Some o
                /\ m_mysql (object o) = m_mysql (object o'))
     \/ In (Ev_init c (m_mysql (object o'))) (trace w')) ->
  (forall l o', libs w' !! l = Some o' -> lib_m_errorCode (object o') = 0%Z ->
     (exists o, libs w !! l = Some o
                /\ lib_m_errorCode (object o) = lib_m_errorCode (object o'))
     \/ In (Ev_library_init l 0) (trace w')) ->
  acquired w'.
Proof.
  intros (As & Ac & Al) Ht Hs Hc Hl. split; [|split].
  - intros s o' E Hh. destruct (Hs s o' E Hh) as [(o & Eo & Em)|H]; [|exact H].
    rewrite <- Em in *. destruct (As s o Eo Hh) as [hc Hin]. eauto.
  - intros c o' E Hh. destruct (Hc c o' E Hh) as [(o & Eo & Em)|H]; [|exact H].
    rewrite <- Em in *. eauto.
  - intros l o' E Hh. destruct (Hl l o' E Hh) as [(o & Eo & Em)|H]; [|exact H].
    rewrite <- Em in *. eauto.
Qed.

Lemma lookup_insert_same_object {A} (l : list (Shared A)) i o o' j z :
  l !! i = Some o -> object o' = object o ->
  <[i := o']> l !! j = Some z ->
  exists z', l !! j = Some z' /\ object z' = object z.
Proof.
  intros Eo Ho E. destruct (decide (j = i)) as [->|N].
  - rewrite list_lookup_insert_eq in E by (eapply lookup_lt_Some; eauto).
    injection E as <-. eauto.
  - rewrite list_lookup_insert_ne in E by congruence. eauto.
Qed.

Lemma paired_same_objects w w' es :
  Paired w -> same_objects w w' -> trace w' = trace w ++ es ->
  release_after_acquire (trace w ++ es) -> Paired w'.
Proof.
  intros [Ha Hr] (Hs & Hc & Hl) Et Hr'. split; [|now rewrite Et].
  apply (acquired_mono w w' Ha).
  - intros e He. rewrite Et. apply in_or_app. now left.
  - intros s o' E _. left. destruct (Hs s o' E) as (o & Eo & Ho). eauto.
  - intros c o' E _. left. destruct (Hc c o' E) as (o & Eo & Ho).
    exists o. now rewrite Ho.
  - intros l o' E _. left. destruct (Hl l o' E) as (o & Eo & Ho).
    exists o. now rewrite Ho.
Qed.

Lemma paired_release_lib l w : Paired w -> Paired (release_lib l w).
Proof.
  intros H. unfold release_lib.
  destruct (libs w !! l) as [o|] eqn:Eo; [|exact H].
  destruct (use_count o) as [|k] eqn:Ek; [exact H|].
  assert (Hso : forall k, same_objects w
            (set_libs (<[l := with_count k o]> (libs w)) w)).
  { intros k'. repeat split; simpl; eauto.
    intros j z E.
    apply (lookup_insert_same_object _ _ _ (with_count k' o) _ _ Eo eq_refl E). }
  destruct k as [|k'].
  - destruct (decide (lib_m_errorCode (object o) = 0%Z)) as [He|Ne].
    + apply (paired_same_objects w _ [Ev_library_end l] H);
        [apply Hso | reflexivity |].
      destruct H as [(_ & _ & Al) Hr]. apply raa_snoc_lib; eauto.
    + apply (paired_same_objects w _ [] H); [apply Hso | |].
      * simpl. now rewrite app_nil_r.
      * rewrite app_nil_r. apply H.
  - apply (paired_same_objects w _ [] H); [apply Hso | |].
    + simpl. now rewrite app_nil_r.
    + rewrite app_nil_r. apply H.
Qed.

Lemma paired_release_conn c w : Paired w -> Paired (release_conn c w).
Proof.
  intros H. unfold release_conn.
  destruct (conns w !! c) as [o|] eqn:Eo; [|exact H].
  destruct (use_count o) as [|k] eqn:Ek; [exact H|].
  assert (Hso : forall k, same_objects w
            (set_conns (<[c := with_count k o]> (conns w)) w)).
  { intros k'. repeat split; simpl; eauto.
    intros j z E.
    apply (lookup_insert_same_object _ _ _ (with_count k' o) _ _ Eo eq_refl E). }
  assert (Hnil : forall k,
            Paired (set_conns (<[c := with_count k o]> (conns w)) w)).
  { intros k'. apply (paired_same_objects w _ [] H); [apply Hso | |].
    - simpl. now rewrite app_nil_r.
    - rewrite app_nil_r. apply H. }
  destruct k as [|k']; [|apply Hnil].
  assert (Hw : Paired
    (if decide (m_mysql (object o) = 0%Z)
     then set_conns (<[c := with_count 0 o]> (conns w)) w
     else emit [Ev_close c (m_mysql (object o))]
            (set_conns (<[c := with_count 0 o]> (conns w)) w))).
  { destruct (decide (m_mysql (object o) = 0%Z)) as [He|Ne]; [apply Hnil|].
    apply (paired_same_objects w _ [Ev_close c (m_mysql (object o))] H);
      [apply Hso | reflexivity |].
    destruct H as [(_ & Ac & _) Hr]. apply raa_snoc_conn; eauto. }
  destruct (m_library (object o)) as [l|]; simpl;
    [apply paired_release_lib|]; exact Hw.
Qed.

Lemma paired_release_stmt s w : Paired w -> Paired (release_stmt s w).
Proof.
  intros H. unfold release_stmt.
  destruct (stmts w !! s) as [o|] eqn:Eo; [|exact H].
  destruct (use_count o) as [|k] eqn:Ek; [exact H|].
  assert (Hso : forall k, same_objects w
            (set_stmts (<[s := with_count k o]> (stmts w)) w)).
  { intros k'. repeat split; simpl; eauto.
    intros j z E.
    destruct (lookup_insert_same_object _ _ _ (with_count k' o) _ _ Eo eq_refl E)
      as (z' & E' & Hz).
    exists z'. now rewrite Hz. }
  assert (Hnil : forall k,
            Paired (set_stmts (<[s := with_count k o]> (stmts w)) w)).
  { intros k'. apply (paired_same_objects w _ [] H); [apply Hso | |].
    - simpl. now rewrite app_nil_r.
    - rewrite app_nil_r. apply H. }
  destruct k as [|k']; [|apply Hnil].
  apply paired_release_conn.
  destruct (decide (m_stmt (object o) = 0%Z)) as [He|Ne]; [apply Hnil|].
  apply (paired_same_objects w _ [Ev_stmt_close s (m_stmt (object o))] H);
    [apply Hso | reflexivity |].
  destruct H as [(As & _ & _) Hr]. apply raa_snoc_stmt; eauto.
Qed.

Lemma paired_count_only w w' :
  Paired w -> same_objects w w' -> trace w' = trace w -> Paired w'.
Proof.
  intros H Hso Et. apply (paired_same_objects w w' [] H Hso).
  - now rewrite app_nil_r.
  - rewrite app_nil_r. apply H.
Qed.

Lemma lookup_alter_same_object {A} (l : list (Shared A)) i j z :
  alter incr i l !! j = Some z ->
  exists z', l !! j = Some z' /\ object z' = object z.
Proof.
  intros E. destruct (l !! i) as [o|] eqn:Eo.
  - rewrite (alter_as_insert _ _ _ _ Eo) in E.
    apply (lookup_insert_same_object _ _ _ (incr o) _ _ Eo eq_refl E).
  - rewrite list_lookup_alter in E. case_decide; [subst j|eauto].
    rewrite Eo in E. discriminate.
Qed.

Lemma paired_acquire r w : Paired w -> Paired (acquire r w).
Proof.
  intros H. apply (paired_count_only w _ H); [|now destruct r].
  destruct r as [l|c|s]; repeat split; simpl; eauto;
    intros j z E; destruct (lookup_alter_same_object _ _ _ _ E)
      as (z' & E' & Hz); exists z'; split; congruence.
Qed.

Lemma paired_set_held h w : Paired w -> Paired (set_held h w).
Proof. intros H. exact H. Qed.

Lemma paired_emit_other es w :
  Paired w -> (forall e, In e es -> is_release e = false) ->
  Paired (emit es w).
Proof.
  intros H Hes. apply (paired_same_objects w _ es H);
    [repeat split; simpl; eauto | reflexivity |].
  apply raa_app_other; [apply H | exact Hes].
Qed.

Lemma paired_new_lib w cnt e inst :
  Paired w ->
  Paired (set_instance inst
            (set_libs (libs w ++ [mkShared cnt (mkLib e)])
               (emit [Ev_library_init (length (libs w)) e] w))).
Proof.
  intros [Ha Hr]. split.
  - apply (acquired_mono w _ Ha); simpl.
    + intros x Hx. apply in_or_app. now left.
    + intros s o' E _. left. eauto.
    + intros c o' E _. left. eauto.
    + intros l o' E He. apply lookup_snoc_Some in E as [E|[-> ->]];
        [left; eauto|].
      right. simpl in He. subst e. apply in_or_app. right. now left.
  - simpl. apply raa_app_other; [exact Hr|].
    intros x [<-|[]]. reflexivity.
Qed.

Lemma paired_new_conn w library h cnt :
  Paired w ->
  Paired (set_conns (conns w ++ [mkShared cnt (mkConn library h)])
            (emit [Ev_init (length (conns w)) h] w)).
Proof.
  intros [Ha Hr]. split.
  - apply (acquired_mono w _ Ha); simpl.
    + intros x Hx. apply in_or_app. now left.
    + intros s o' E _. left. eauto.
    + intros c o' E He. apply lookup_snoc_Some in E as [E|[-> ->]];
        [left; eauto|].
      right. simpl. apply in_or_app. right. now left.
    + intros l o' E _. left. eauto.
  - simpl. apply raa_app_other; [exact Hr|].
    intros x [<-|[]]. reflexivity.
Qed.

Lemma paired_new_stmt w conn hc h cnt :
  Paired w ->
  Paired (set_stmts (stmts w ++ [mkShared cnt (mkStmt conn h [] [] 0%Z)])
            (emit [Ev_stmt_init (length (stmts w)) hc h] w)).
Proof.
  intros [Ha Hr]. split.
  - apply (acquired_mono w _ Ha); simpl.
    + intros x Hx. apply in_or_app. now left.
    + intros s o' E He. apply lookup_snoc_Some in E as [E|[-> ->]];
        [left; eauto|].
      right. simpl. exists hc. apply in_or_app. right. now left.
    + intros c o' E _. left. eauto.
    + intros l o' E _. left. eauto.
  - simpl. apply raa_app_other; [exact Hr|].
    intros x [<-|[]]. reflexivity.
Qed.

Lemma paired_createOrGet argc argv groups n w :
  Paired w -> Paired (fst (createOrGet argc argv groups n w)).
Proof.
  intros H. unfold createOrGet. destruct (lock w) as [l|]; simpl.
  - apply (paired_acquire (RLib l)), H.
  - destruct (decide _); simpl.
    + apply (paired_new_lib w 1 _ (Some (length (libs w)))), H.
    + apply (paired_new_lib w 0 _ (m_instance w)), H.
Qed.

Lemma paired_connection_create library n w :
  Paired w -> Paired (fst (MySQLConnection_create library n w)).
Proof.
  intros H. unfold MySQLConnection_create.
  assert (H1 : Paired (acquire_lib_opt library w))
    by (destruct library as [l|]; [apply (paired_acquire (RLib l))|]; exact H).
  assert (Ec : conns (acquire_lib_opt library w) = conns w)
    by (destruct library; reflexivity).
  destruct (decide _).
  - pose proof (paired_new_conn _ library (mysql_init n 0%Z) 0 H1) as H2.
    simpl in H2. rewrite Ec in H2. unfold emit at 1. simpl. rewrite Ec.
    destruct library as [l|]; simpl in *;
      [apply paired_release_lib|]; exact H2.
  - pose proof (paired_new_conn _ library (mysql_init n 0%Z) 1 H1) as H2.
    simpl in H2. rewrite Ec in H2. unfold emit at 1. simpl. rewrite Ec.
    exact H2.
Qed.

Lemma paired_statement_create conn n w :
  Paired w -> Paired (fst (MySQLPreparedStatement_create conn n w)).
Proof.
  intros H. unfold MySQLPreparedStatement_create.
  pose proof (paired_acquire (RConn conn) w H) as H1.
  destruct (decide _); simpl.
  - apply paired_release_conn. apply (paired_new_stmt _ conn _ _ 0 H1).
  - apply (paired_new_stmt _ conn _ _ 1 H1).
Qed.

Lemma paired_keep mk (r : World * Result nat) :
  Paired (fst r) -> Paired (keep mk r).
Proof. destruct r as [w' [i|e]]; simpl; trivial. Qed.

Lemma not_release_calls cs e : In e (Ev_call <$> cs) -> is_release e = false.
Proof.
  intros Hin. apply list_elem_of_In, list_elem_of_fmap in Hin as (c & -> & _).
  reflexivity.
Qed.

Lemma paired_step n op w : Paired w -> Paired (step n op w).
Proof.
  intros H. destruct op as [argc argv groups|[i|]|i|i|i|i m|i m]; simpl.
  - apply paired_keep, paired_createOrGet, H.
  - destruct (held w !! i) as [[l|c|s]|]; try exact H.
    apply paired_keep, paired_connection_create, H.
  - apply paired_keep, paired_connection_create, H.
  - destruct (held w !! i) as [[l|c|s]|]; try exact H.
    apply paired_keep, paired_statement_create, H.
  - destruct (held w !! i) as [r|]; [|exact H].
    apply paired_set_held, paired_acquire, H.
  - destruct (held w !! i) as [r|]; [|exact H].
    destruct r; simpl;
      [apply paired_release_lib | apply paired_release_conn
       | apply paired_release_stmt]; exact H.
  - destruct (held w !! i) as [[l|c|s]|]; try exact H.
    destruct (conns w !! c) as [o|] eqn:Eo; [|exact H].
    pose proof (call_conn_frame m n (object o)) as Hf.
    destruct (call_conn m n (object o)) as [o' cs]. simpl in Hf. subst o'.
    apply paired_emit_other; [|apply not_release_calls].
    replace (mkShared (use_count o) (object o)) with o by (now destruct o).
    rewrite list_insert_id by assumption. destruct w; exact H.
  - destruct (held w !! i) as [[l|c|s]|]; try exact H.
    destruct (stmts w !! s) as [o|] eqn:Eo; [|exact H].
    pose proof (call_stmt_frame m n (object o)) as [Hf1 Hf2].
    destruct (call_stmt m n (object o)) as [o' cs]. simpl in Hf1, Hf2.
    apply paired_emit_other; [|apply not_release_calls].
    apply (paired_count_only w _ H); [|reflexivity].
    repeat split; simpl; eauto.
    intros j z E. destruct (decide (j = s)) as [->|N].
    + rewrite list_lookup_insert_eq in E by (eapply lookup_lt_Some; eauto).
      injection E as <-. exists o. simpl. auto.
    + rewrite list_lookup_insert_ne in E by congruence. eauto.
Qed.

Lemma paired_run p w : Paired w -> Paired (run p w).
Proof.
  revert w. induction p as [|[n op] p IH]; intros w H; simpl; [exact H|].
  apply IH, paired_step, H.
Qed.

Lemma paired_initial : Paired initial.
Proof.
  split; [repeat split; simpl; intros; discriminate|].
  repeat split; simpl; intros; destruct t1; discriminate.
Qed.

(** X14: every release follows its acquisition.  In the trace of every
    client program, each [mysql_stmt_close] is given a non-null handle that
    [mysql_stmt_init] returned earlier to the same statement object, each
    [mysql_close] a non-null handle that [mysql_init] returned earlier to
    the same connection object, and each [mysql_library_end] comes after
    a [mysql_library_init] of the same library object that returned [0]. *)
Theorem X14_release_follows_acquisition (p : list (Native * Op)) :
  let t := trace (run p initial) in
  (forall s h t1 t2, t = t1 ++ Ev_stmt_close s h :: t2 ->
     h <> 0%Z /\ exists hc, In (Ev_stmt_init s hc h) t1)
  /\ (forall c h t1 t2, t = t1 ++ Ev_close c h :: t2 ->
     h <> 0%Z /\ In (Ev_init c h) t1)
  /\ (forall l t1 t2, t = t1 ++ Ev_library_end l :: t2 ->
     In (Ev_library_init l 0) t1).
Proof. exact (proj2 (paired_run p initial paired_initial)). Qed.

Lemma X14_release_follows_acquisition_witness :
  In (Ev_init 0 7) [Ev_library_init 0 0; Ev_init 0 7; Ev_stmt_init 0 7 7;
     Ev_call (Call_mysql_stmt_bind_param 7 [descriptor MYSQL_TYPE_LONG 16 4]);
     Ev_stmt_close 0 7].
Proof.
  refine (proj2 (proj1 (proj2 (X14_release_follows_acquisition program_chain))
     0 7%Z
     [Ev_library_init 0 0; Ev_init 0 7; Ev_stmt_init 0 7 7;
      Ev_call (Call_mysql_stmt_bind_param 7 [descriptor MYSQL_TYPE_LONG 16 4]);
      Ev_stmt_close 0 7]
     [Ev_library_end 0] eq_refl)).
Defined.

(** X15: the references a client holds never dangle.  In every state a
    client program can reach, a held statement reference is to a living
    statement whose handle is non-null and has not been closed, a held
    connection reference to a living connection whose handle is non-null
    and has not been closed, and a held library reference to the living
    library, initialised and not ended, that [m_instance] observes. *)
Theorem X15_held_references_never_dangle (p : list (Native * Op))
    (i : nat) (r : Ref) :
  let w := run p initial in
  held w !! i = Some r ->
  match r with
  | RStmt s =>
      exists o, stmts w !! s = Some o /\ use_count o <> 0
        /\ m_stmt (object o) <> 0%Z
        /\ ~ In (Ev_stmt_close s (m_stmt (object o))) (trace w)
  | RConn c =>
      exists o, conns w !! c = Some o /\ use_count o <> 0
        /\ m_mysql (object o) <> 0%Z
        /\ ~ In (Ev_close c (m_mysql (object o))) (trace w)
  | RLib l =>
      exists o, libs w !! l = Some o /\ use_count o <> 0
        /\ lib_m_errorCode (object o) = 0%Z
        /\ ~ In (Ev_library_end l) (trace w)
        /\ lock w = Some l
  end.
Proof.
  intros w. assert (H : Inv None w) by apply reachable_inv. clearbody w.
  intros Eh. pose proof (held_lookup_count _ _ _ Eh) as Hh.
  pose proof (inv_constructed _ _ H) as Hk. inv_open H.
  destruct r as [l|c|s].
  - specialize (Hcl l).
    destruct (uc_pos_lookup (libs w) l) as (o & Eo & No);
      [unfold uc_lib in Hcl; lia|].
    destruct (Hkl l o Eo No) as [He Hi].
    exists o. repeat split; try assumption.
    + apply count_occ_zero_absent.
      rewrite (Hol l o Eo He), (proj2 (alive_true o) No). reflexivity.
    + apply lock_alive; [exact Hk|]. unfold uc_lib. now rewrite Eo.
  - specialize (Hcc c).
    destruct (uc_pos_lookup (conns w) c) as (o & Eo & No);
      [unfold uc_conn in Hcc; lia|].
    pose proof (Hkc c o Eo No) as He.
    exists o. repeat split; try assumption.
    apply count_occ_zero_absent.
    rewrite (Hoc c o Eo He), (proj2 (alive_true o) No). reflexivity.
  - specialize (Hcs s).
    destruct (uc_pos_lookup (stmts w) s) as (o & Eo & No);
      [unfold uc_stmt in Hcs; lia|].
    pose proof (Hks s o Eo No) as He.
    exists o. repeat split; try assumption.
    apply count_occ_zero_absent.
    rewrite (Hos s o Eo He), (proj2 (alive_true o) No). reflexivity.
Qed.

Lemma X15_held_references_never_dangle_witness :
  exists o, stmts (run [(native_ok 7, Op_createOrGet 0 0 0);
                        (native_ok 7, Op_connection_create (Some 0));
                        (native_ok 7, Op_statement_create 1);
                        (native_ok 7, Op_reset 0);
                        (native_ok 7, Op_reset 0)] initial) !! 0 = Some o
    /\ use_count o <> 0.
Proof.
  destruct (X15_held_references_never_dangle
     [(native_ok 7, Op_createOrGet 0 0 0);
      (native_ok 7, Op_connection_create (Some 0));
      (native_ok 7, Op_statement_create 1);
      (native_ok 7, Op_reset 0); (native_ok 7, Op_reset 0)] 0 (RStmt 0)
     eq_refl) as (o & E & N & _).
  exists o. split; assumption.
Defined.

(** X16: what dropping a reference to a connection or to the library does
    to the native library, in every state a client program can reach.
    For a connection: nothing while other references or living statements
    own it; otherwise [mysql_close] on its handle and then, if it owned a
    library and was its last owner, [mysql_library_end].  For the library:
    [mysql_library_end] exactly when the reference was its last owner,
    [m_instance] not counting as one. *)
Theorem X16_dropping_a_connection_or_library_reference
    (p : list (Native * Op)) (n : Native) (i : nat) :
  let w := run p initial in
  (forall c co, held w !! i = Some (RConn c) -> conns w !! c = Some co ->
     trace (step n (Op_reset i) w)
     = trace w ++
       (if decide (use_count co = 1) then
          Ev_close c (m_mysql (object co)) ::
          match m_library (object co) with
          | Some l =>
              if decide (uc_lib w l = 1) then [Ev_library_end l] else []
          | None => []
          end
        else []))
  /\ (forall l, held w !! i = Some (RLib l) ->
     trace (step n (Op_reset i) w)
     = trace w ++ (if decide (uc_lib w l = 1) then [Ev_library_end l] else [])).
Proof.
  intros w. assert (H : Inv None w) by apply reachable_inv. clearbody w.
  inv_open H. split.
  - intros c co Eh Ec.
    assert (Nc : use_count co <> 0).
    { pose proof (held_lookup_count _ _ _ Eh) as Hh. specialize (Hcc c).
      unfold uc_conn in Hcc. rewrite Ec in Hcc. simpl in Hcc. lia. }
    pose proof (Hkc _ co Ec Nc) as Hhc.
    pose proof (proj2 (alive_true co) Nc) as Hac.
    simpl. rewrite Eh. simpl. unfold release_conn. simpl. rewrite Ec.
    destruct (use_count co) as [|[|kc]] eqn:Ekc; [congruence| |].
    2: { simpl. now rewrite app_nil_r. }
    simpl. destruct (decide (m_mysql (object co) = 0%Z)); [contradiction|].
    destruct (m_library (object co)) as [l|] eqn:El; simpl; [|reflexivity].
    assert (Hl : uc_lib w l <> 0).
    { assert (Hd : 0 < conn_deps w l).
      { unfold conn_deps. eapply count_if_pos; [exact Ec|]. simpl.
        rewrite Hac, bool_decide_eq_true_2; [reflexivity | exact El]. }
      specialize (Hcl l). lia. }
    destruct (uc_pos_lookup _ _ Hl) as (lo & Elo & Nlo).
    destruct (Hkl l lo Elo Nlo) as [He _].
    unfold release_lib, uc_lib. simpl. rewrite Elo. simpl.
    destruct (use_count lo) as [|[|kl]] eqn:Ekl; [congruence| |]; simpl.
    + destruct (decide _); [|contradiction]. simpl.
      now rewrite <- ?app_assoc.
    + now rewrite <- ?app_assoc.
  - intros l Eh.
    assert (Hl : uc_lib w l <> 0).
    { pose proof (held_lookup_count _ _ _ Eh) as Hh. specialize (Hcl l). lia. }
    destruct (uc_pos_lookup _ _ Hl) as (lo & Elo & Nlo).
    destruct (Hkl l lo Elo Nlo) as [He _].
    simpl. rewrite Eh. simpl. unfold release_lib, uc_lib. simpl. rewrite Elo.
    simpl. destruct (use_count lo) as [|[|kl]] eqn:Ekl; [congruence| |]; simpl.
    + destruct (decide _); [|contradiction]. reflexivity.
    + now rewrite app_nil_r.
Qed.

Lemma X16_dropping_a_connection_or_library_reference_witness :
  trace (step (native_ok 7) (Op_reset 0)
           (run [(native_ok 7, Op_createOrGet 0 0 0);
                 (native_ok 7, Op_connection_create (Some 0))] initial))
  = [Ev_library_init 0 0; Ev_init 0 7] ++ [].
Proof.
  refine (proj2 (X16_dropping_a_connection_or_library_reference
     [(native_ok 7, Op_createOrGet 0 0 0);
      (native_ok 7, Op_connection_create (Some 0))] (native_ok 7) 0) 0 eq_refl).
Defined.

Lemma X6_setParameterLength_composes_witness :
  state_after (setParameterLength 1 9
     (state_after (setParameterLength 0 5
        (mkStmt 0 9 [descriptor MYSQL_TYPE_BLOB 16 4;
                     descriptor MYSQL_TYPE_STRING 32 10] [] 0))))
  = state_after (setParameterLength 0 5
     (state_after (setParameterLength 1 9
        (mkStmt 0 9 [descriptor MYSQL_TYPE_BLOB 16 4;
                     descriptor MYSQL_TYPE_STRING 32 10] [] 0)))).
Proof.
  apply (X6_setParameterLength_composes 0 1 5 9
           (mkStmt 0 9 [descriptor MYSQL_TYPE_BLOB 16 4;
                        descriptor MYSQL_TYPE_STRING 32 10] [] 0)).
  discriminate.
Defined.
